(** * mio: memory-mapped file regions

    A shallow embedding of [include/mio/detail/mmap_impl.ipp] (the POSIX
    branch of every [#ifdef _WIN32]) together with the properties of the
    mapped-region object that the specification states about it.

    The region object is a record, every member function is a function that
    takes the object, the caller's error slot and the state of the operating
    system, and returns the three of them updated.  The operating system is
    an oracle: its answers are functions of the history of system calls, and
    every call the code makes is appended to that history. *)

From Stdlib Require Import ZArith List String Bool Lia.
From Stdlib.Strings Require Import Byte.
Import ListNotations.
Local Open Scope Z_scope.

(** ** Machine integers, handles and pointers *)

(** [int64_t] arithmetic: the result of an operation is reduced into
    [[-2^63, 2^63)]. *)
Definition int64_wrap (z : Z) : Z := (z + 2 ^ 63) mod 2 ^ 64 - 2 ^ 63.

(** [size_t] arithmetic and the conversion of an [int64_t] to [size_t]. *)
Definition size_t_wrap (z : Z) : Z := z mod 2 ^ 64.

Definition INT64_MAX : Z := 2 ^ 63 - 1.

(** [DWORD]: the conversion of an integer to 32 unsigned bits. *)
Definition dword_wrap (z : Z) : Z := z mod 2 ^ 32.

(** [int64_high] and [int64_low], the two halves the Windows branch hands
    to the file-mapping calls. *)
Definition int64_high (n : Z) : Z := dword_wrap (Z.shiftr n 32).

Definition int64_low (n : Z) : Z := dword_wrap (Z.land n 0xffffffff).

(** Modelled from the spec: [mmap::size_type] is declared in
    [mmap_impl.hpp]; it is the signed 64-bit type that [length <= 0] and
    [int64_high(int64_t)] are written for. *)
Definition size_type : Type := Z.

(** Modelled from the spec: [mmap::handle_type] is the POSIX file
    descriptor, an [int]. *)
Definition handle_type : Type := Z.

(** Modelled from the spec: the explicit "invalid handle" sentinel of
    [mmap_impl.hpp]; on POSIX the value that [open] returns on failure. *)
Definition INVALID_HANDLE_VALUE : handle_type := -1.

(** [mmap::pointer] is [const char*]; an address. *)
Definition pointer : Type := Z.
Definition nullptr : pointer := 0.

(** [<sys/mman.h>]: [MAP_FAILED] is [(void* ) -1]. *)
Definition MAP_FAILED : pointer := -1.

(** [<fcntl.h>] and [<sys/mman.h>] constants, with their Linux values. *)
Definition O_RDONLY : Z := 0.
Definition O_RDWR : Z := 2.
Definition PROT_READ : Z := 1.
Definition PROT_WRITE : Z := 2.
Definition MAP_SHARED : Z := 1.
Definition MS_SYNC : Z := 4.

(** What a protection argument grants: bit 0 is [PROT_READ], bit 1 is
    [PROT_WRITE]. *)
Definition prot_readable (prot : Z) : bool := Z.testbit prot 0.
Definition prot_writable (prot : Z) : bool := Z.testbit prot 1.

(** Modelled from the spec: [mmap::access_mode] of [mmap_impl.hpp]. *)
Inductive access_mode : Type := read_only | read_write.

Definition access_mode_eqb (a b : access_mode) : bool :=
  match a, b with
  | read_only, read_only | read_write, read_write => true
  | _, _ => false
  end.

(** ** [std::error_code] *)

Inductive error_category : Type := generic_category | system_category.

Record error_code : Type := mk_error_code
  { ec_value : Z; ec_category : error_category }.

(** [error.clear()] *)
Definition error_clear : error_code := mk_error_code 0 system_category.

(** [explicit operator bool]: the value is not zero. *)
Definition error_set (e : error_code) : bool := negb (ec_value e =? 0).

(** The two [std::errc] conditions the code raises itself, with the
    [<errno.h>] values they stand for ([EINVAL], [EBADF]). *)
Inductive errc : Type := invalid_argument | bad_file_descriptor.

Definition errc_value (c : errc) : Z :=
  match c with
  | invalid_argument => 22
  | bad_file_descriptor => 9
  end.

(** [std::make_error_code] *)
Definition make_error_code (c : errc) : error_code :=
  mk_error_code (errc_value c) generic_category.

(** [error == std::errc::c]: on POSIX both categories map a value to the
    generic condition of the same number. *)
Definition is_condition (e : error_code) (c : errc) : bool :=
  ec_value e =? errc_value c.

(** ** The operating system *)

Inductive syscall : Type :=
| sys_open (path : string) (oflag : Z)
| sys_fstat (fd : handle_type)
| sys_mmap (addr : pointer) (len : Z) (prot : Z) (flags : Z)
           (fd : handle_type) (off : Z)
| sys_msync (addr : pointer) (len : Z) (flags : Z)
| sys_munmap (addr : pointer) (len : Z)
| sys_close (fd : handle_type).

(** The calls made so far, oldest first. *)
Definition trace : Type := list syscall.

(** The return value of a call and the [errno] it leaves when it fails. *)
Record sys_result : Type := mk_sys_result { sr_ret : Z; sr_errno : Z }.

(** The answers of the operating system, each a function of the history. *)
Record os_model : Type := mk_os_model
  { os_page_size : Z;                       (* sysconf(_SC_PAGE_SIZE) *)
    os_open : trace -> string -> Z -> sys_result;
    os_fstat : trace -> handle_type -> sys_result;
    os_st_size : trace -> handle_type -> Z;  (* sbuf.st_size *)
    os_mmap : trace -> Z -> Z -> Z -> handle_type -> Z -> sys_result;
    os_msync : trace -> pointer -> Z -> Z -> sys_result;
    os_munmap : trace -> pointer -> Z -> sys_result;
    os_close : trace -> handle_type -> sys_result }.

(** The process's view of the system: the calls made and [errno]. *)
Record world : Type := mk_world { w_trace : trace; w_errno : Z }.

(** A call is recorded, and [errno] is assigned when it fails. *)
Definition perform (call : syscall) (failure : Z) (r : sys_result) (w : world)
  : Z * world :=
  (sr_ret r,
   mk_world (w_trace w ++ [call])
            (if sr_ret r =? failure then sr_errno r else w_errno w)).

Section Posix.

Variable os : os_model.

Definition posix_open (path : string) (oflag : Z) (w : world) : Z * world :=
  perform (sys_open path oflag) (-1) (os_open os (w_trace w) path oflag) w.

Definition posix_fstat (fd : handle_type) (w : world) : Z * Z * world :=
  let '(ret, w') :=
    perform (sys_fstat fd) (-1) (os_fstat os (w_trace w) fd) w in
  (ret, os_st_size os (w_trace w) fd, w').

Definition posix_mmap (len prot flags : Z) (fd : handle_type) (off : Z)
  (w : world) : pointer * world :=
  perform (sys_mmap 0 len prot flags fd off) MAP_FAILED
          (os_mmap os (w_trace w) len prot flags fd off) w.

Definition posix_msync (addr : pointer) (len flags : Z) (w : world)
  : Z * world :=
  perform (sys_msync addr len flags) (-1)
          (os_msync os (w_trace w) addr len flags) w.

Definition posix_munmap (addr : pointer) (len : Z) (w : world) : Z * world :=
  perform (sys_munmap addr len) (-1) (os_munmap os (w_trace w) addr len) w.

Definition posix_close (fd : handle_type) (w : world) : Z * world :=
  perform (sys_close fd) (-1) (os_close os (w_trace w) fd) w.

(** ** Platform primitives *)

Definition page_size : Z := os_page_size os.

(** [offset / page_size_ * page_size_] on [size_t]. *)
Definition make_page_aligned (offset : Z) : Z :=
  size_t_wrap (offset / page_size * page_size).

Definition last_error (w : world) : error_code :=
  mk_error_code (w_errno w) system_category.

(** [detail::empty(path)] *)
Definition empty (path : string) : bool := (String.length path =? 0)%nat.

Definition open_file (path : string) (mode : access_mode)
  (error : error_code) (w : world) : handle_type * error_code * world :=
  let error := error_clear in
  if empty path then
    (INVALID_HANDLE_VALUE, make_error_code invalid_argument, w)
  else
    let '(handle, w1) :=
      posix_open path
        (if access_mode_eqb mode read_only then O_RDONLY else O_RDWR) w in
    if handle =? INVALID_HANDLE_VALUE
    then (handle, last_error w1, w1)
    else (handle, error, w1).

Definition query_file_size (handle : handle_type) (error : error_code)
  (w : world) : size_type * error_code * world :=
  let error := error_clear in
  let '(ret, st_size, w1) := posix_fstat handle w in
  if ret =? -1 then (0, last_error w1, w1)
  else (st_size, error, w1).

(** ** The mapped region *)

Record mmap : Type := mk_mmap
  { data_ : pointer;
    length_ : size_type;
    mapped_length_ : size_type;
    file_handle_ : handle_type;
    is_handle_internal_ : bool }.

(** Modelled from the spec: the default member initialisers of
    [mmap_impl.hpp], the empty state of a region with no mapping. *)
Definition mmap_default : mmap :=
  mk_mmap nullptr 0 0 INVALID_HANDLE_VALUE false.

(** What a member function leaves behind: the object, the caller's error
    slot and the operating system. *)
Record outcome : Type := mk_outcome
  { o_this : mmap; o_error : error_code; o_world : world }.

Definition is_open (this : mmap) : bool :=
  negb (file_handle_ this =? INVALID_HANDLE_VALUE).

Definition is_mapped (this : mmap) : bool := is_open this.

Definition mapping_handle (this : mmap) : handle_type := file_handle_ this.

(** Modelled from the spec: the accessors of [mmap_impl.hpp]; [size] is the
    user-visible [length], [begin] and [end] delimit the mapped bytes. *)
Definition data (this : mmap) : pointer := data_ this.
Definition size (this : mmap) : size_type := length_ this.
Definition begin_ (this : mmap) : pointer := data this.
Definition end_ (this : mmap) : pointer := data this + size this.

Definition get_mapping_start (this : mmap) : pointer :=
  if data_ this =? nullptr then nullptr
  else
    let offset := int64_wrap (mapped_length_ this - length_ this) in
    data_ this - offset.

(** [map(offset, length, mode, error)]: the private overload that calls the
    mapping primitive on [file_handle_]. *)
Definition map_offset (offset length : size_type) (mode : access_mode)
  (this : mmap) (error : error_code) (w : world) : outcome :=
  let aligned_offset := int64_wrap (make_page_aligned (size_t_wrap offset)) in
  let length_to_map :=
    int64_wrap (int64_wrap (offset - aligned_offset) + length) in
  let '(mapping_start, w1) :=
    posix_mmap (size_t_wrap length_to_map)
      (if access_mode_eqb mode read_only then PROT_READ else PROT_WRITE)
      MAP_SHARED (file_handle_ this) aligned_offset w in
  if mapping_start =? MAP_FAILED then
    mk_outcome this (last_error w1) w1
  else
    mk_outcome
      (mk_mmap (mapping_start + offset - aligned_offset) length length_to_map
               (file_handle_ this) (is_handle_internal_ this))
      error w1.

(** [map(handle, offset, length, mode, error)] *)
Definition map_handle (handle : handle_type) (offset length : size_type)
  (mode : access_mode) (this : mmap) (error : error_code) (w : world)
  : outcome :=
  let error := error_clear in
  if handle =? INVALID_HANDLE_VALUE then
    mk_outcome this (make_error_code bad_file_descriptor) w
  else
    let '(file_size, error, w1) := query_file_size handle error w in
    if error_set error then mk_outcome this error w1
    else
      let this1 :=
        mk_mmap (data_ this) (length_ this) (mapped_length_ this)
                handle false in
      if length <=? 0 then map_offset offset file_size mode this1 error w1
      else if int64_wrap (offset + length) >? file_size then
        mk_outcome this (make_error_code invalid_argument) w1
      else map_offset offset length mode this1 error w1.

(** [map(path, offset, length, mode, error)] *)
Definition map_path (path : string) (offset length : size_type)
  (mode : access_mode) (this : mmap) (error : error_code) (w : world)
  : outcome :=
  let error := error_clear in
  if empty path then
    mk_outcome this (make_error_code invalid_argument) w
  else if negb (is_open this) then
    let '(handle, error, w1) := open_file path mode error w in
    if error_set error then mk_outcome this error w1
    else
      let r := map_handle handle offset length mode this error w1 in
      let this2 := o_this r in
      mk_outcome
        (mk_mmap (data_ this2) (length_ this2) (mapped_length_ this2)
                 (file_handle_ this2) true)
        (o_error r) (o_world r)
  else mk_outcome this error w.

Definition sync (this : mmap) (error : error_code) (w : world)
  : error_code * world :=
  let error := error_clear in
  if negb (is_open this) then (make_error_code bad_file_descriptor, w)
  else if negb (data this =? nullptr) then
    let '(ret, w1) :=
      posix_msync (get_mapping_start this) (size_t_wrap (mapped_length_ this))
                  MS_SYNC w in
    if negb (ret =? 0) then (last_error w1, w1) else (error, w1)
  else (error, w).

Definition unmap (this : mmap) (w : world) : mmap * world :=
  if negb (is_open this) then (this, w)
  else
    let w1 :=
      if negb (data_ this =? nullptr) then
        snd (posix_munmap (get_mapping_start this)
                          (size_t_wrap (mapped_length_ this)) w)
      else w in
    let w2 :=
      if is_handle_internal_ this
      then snd (posix_close (file_handle_ this) w1)
      else w1 in
    (mk_mmap nullptr 0 0 INVALID_HANDLE_VALUE (is_handle_internal_ this), w2).

(** [~mmap()]: the object is gone, the system remains. *)
Definition destroy (this : mmap) (w : world) : world := snd (unmap this w).

End Posix.

(** ** The request [map] makes to the mapping primitive

    The local constants of the private [map] overload, named so that
    statements can refer to them. *)

Definition aligned_offset_of (os : os_model) (offset : size_type) : size_type :=
  int64_wrap (make_page_aligned os (size_t_wrap offset)).

Definition length_to_map_of (os : os_model) (offset length : size_type)
  : size_type :=
  int64_wrap (int64_wrap (offset - aligned_offset_of os offset) + length).

Definition protection_of (mode : access_mode) : Z :=
  match mode with
  | read_only => PROT_READ
  | read_write => PROT_WRITE
  end.

(** The access flags [open_file] passes to [open]. *)
Definition open_flags_of (mode : access_mode) : Z :=
  match mode with
  | read_only => O_RDONLY
  | read_write => O_RDWR
  end.

Definition mapping_call (os : os_model) (offset length : size_type)
  (mode : access_mode) (fd : handle_type) : syscall :=
  sys_mmap 0 (size_t_wrap (length_to_map_of os offset length))
           (protection_of mode) MAP_SHARED fd (aligned_offset_of os offset).

Definition mapping_answer (os : os_model) (t : trace)
  (offset length : size_type) (mode : access_mode) (fd : handle_type)
  : sys_result :=
  os_mmap os t (size_t_wrap (length_to_map_of os offset length))
          (protection_of mode) MAP_SHARED fd (aligned_offset_of os offset).

(** ** Two objects: move and swap *)

(** [mmap(mmap&& other)]: the new object and what is left of [other]. *)
Definition move_construct (other : mmap) : mmap * mmap :=
  (mk_mmap (data_ other) (length_ other) (mapped_length_ other)
           (file_handle_ other) (is_handle_internal_ other),
   mk_mmap nullptr 0 0 INVALID_HANDLE_VALUE (is_handle_internal_ other)).

(** [operator=(mmap&& other)] for [this != &other]; self-assignment leaves
    everything as it is. *)
Definition move_assign (os : os_model) (this other : mmap) (w : world)
  : mmap * mmap * world :=
  let '(_, w1) := unmap os this w in
  (mk_mmap (data_ other) (length_ other) (mapped_length_ other)
           (file_handle_ other) (is_handle_internal_ other),
   mk_mmap nullptr 0 0 INVALID_HANDLE_VALUE false,
   w1).

(** [swap(other)] for [this != &other]. *)
Definition swap (this other : mmap) : mmap * mmap := (other, this).

(** ** Equality of regions *)

(** The bytes of the address space. *)
Definition memory : Type := pointer -> byte.

(** [std::equal(first1, last1, first2)] over [n = last1 - first1] bytes. *)
Fixpoint std_equal (mem : memory) (first1 : pointer) (n : nat)
  (first2 : pointer) : bool :=
  match n with
  | O => true
  | S k =>
      if Byte.eqb (mem first1) (mem first2)
      then std_equal mem (first1 + 1) k (first2 + 1)
      else false
  end.

Definition operator_eq (mem : memory) (a b : mmap) : bool :=
  if is_mapped a && is_mapped b then
    (size a =? size b)
    && std_equal mem (begin_ a) (Z.to_nat (end_ a - begin_ a)) (begin_ b)
  else negb (is_mapped a) && negb (is_mapped b).

Definition operator_ne (mem : memory) (a b : mmap) : bool :=
  negb (operator_eq mem a b).

(** ** Sequences of calls on one region *)

Inductive operation : Type :=
| call_map_path (path : string) (offset length : size_type)
                (mode : access_mode)
| call_map_handle (handle : handle_type) (offset length : size_type)
                  (mode : access_mode)
| call_sync
| call_unmap.

Definition step (os : os_model) (op : operation) (st : mmap * world)
  : mmap * world :=
  let '(this, w) := st in
  match op with
  | call_map_path path offset length mode =>
      let r := map_path os path offset length mode this error_clear w in
      (o_this r, o_world r)
  | call_map_handle handle offset length mode =>
      let r := map_handle os handle offset length mode this error_clear w in
      (o_this r, o_world r)
  | call_sync => (this, snd (sync os this error_clear w))
  | call_unmap => unmap os this w
  end.

Definition run (os : os_model) (ops : list operation) (st : mmap * world)
  : mmap * world :=
  fold_left (fun st op => step os op st) ops st.

(** The life of a region: default construction, the calls, destruction. *)
Definition lifetime (os : os_model) (ops : list operation) (w : world)
  : world :=
  let '(this, w') := run os ops (mmap_default, w) in destroy os this w'.

(** How often a descriptor was closed. *)
Definition is_close_of (fd : handle_type) (call : syscall) : bool :=
  match call with
  | sys_close fd' => fd' =? fd
  | _ => false
  end.

Definition closes (fd : handle_type) (t : trace) : nat :=
  List.length (filter (is_close_of fd) t).

(** The bytes a region shows, first to last. *)
Definition region_bytes (mem : memory) (this : mmap) : list byte :=
  List.map (fun i => mem (data this + Z.of_nat i))
           (seq 0 (Z.to_nat (size this))).

(** ** What POSIX promises about [errno] *)

(** A call that fails leaves a non-zero [errno]. *)
Definition errno_discipline (os : os_model) : Prop :=
  (forall t path oflag,
      sr_ret (os_open os t path oflag) = -1 ->
      sr_errno (os_open os t path oflag) <> 0)
  /\ (forall t fd,
      sr_ret (os_fstat os t fd) = -1 -> sr_errno (os_fstat os t fd) <> 0)
  /\ (forall t len prot flags fd off,
      sr_ret (os_mmap os t len prot flags fd off) = MAP_FAILED ->
      sr_errno (os_mmap os t len prot flags fd off) <> 0).

(** ** A small operating system to run the code on

    Files are given by path and size.  The n-th successful [open] returns
    descriptor [3 + n]; [fstat] reports the size of the file a descriptor was
    opened on; [mmap] refuses a zero length and an offset that is not a
    multiple of the page size with [EINVAL], and otherwise maps, also past
    the end of the file, as Linux does. *)

Definition ENOENT : Z := 2.
Definition EBADF : Z := 9.
Definition EINVAL : Z := 22.

Fixpoint file_size_of (files : list (string * Z)) (path : string)
  : option Z :=
  match files with
  | [] => None
  | (p, n) :: rest =>
      if String.eqb p path then Some n else file_size_of rest path
  end.

Definition opened_paths (files : list (string * Z)) (t : trace)
  : list string :=
  flat_map
    (fun call =>
       match call with
       | sys_open path _ =>
           match file_size_of files path with
           | Some _ => [path]
           | None => []
           end
       | _ => []
       end) t.

Definition descriptor_size (files : list (string * Z)) (t : trace)
  (fd : handle_type) : option Z :=
  if fd <? 3 then None
  else
    match nth_error (opened_paths files t) (Z.to_nat (fd - 3)) with
    | Some path => file_size_of files path
    | None => None
    end.

Definition mappings_made (t : trace) : Z :=
  Z.of_nat
    (List.length
       (filter (fun call =>
                  match call with sys_mmap _ _ _ _ _ _ => true | _ => false end)
               t)).

Definition demo_os (files : list (string * Z)) : os_model :=
  {| os_page_size := 4096;
     os_open t path oflag :=
       match file_size_of files path with
       | Some _ =>
           mk_sys_result (3 + Z.of_nat (List.length (opened_paths files t))) 0
       | None => mk_sys_result (-1) ENOENT
       end;
     os_fstat t fd :=
       match descriptor_size files t fd with
       | Some _ => mk_sys_result 0 0
       | None => mk_sys_result (-1) EBADF
       end;
     os_st_size t fd :=
       match descriptor_size files t fd with
       | Some n => n
       | None => 0
       end;
     os_mmap t len prot flags fd off :=
       if (len =? 0) || negb (off mod 4096 =? 0)
       then mk_sys_result MAP_FAILED EINVAL
       else
         match descriptor_size files t fd with
         | Some _ => mk_sys_result (1048576 * (1 + mappings_made t)) 0
         | None => mk_sys_result MAP_FAILED EBADF
         end;
     os_msync t addr len flags := mk_sys_result 0 0;
     os_munmap t addr len := mk_sys_result 0 0;
     os_close t fd :=
       match descriptor_size files t fd with
       | Some _ => mk_sys_result 0 0
       | None => mk_sys_result (-1) EBADF
       end |}.

(** A fresh process. *)
Definition boot : world := mk_world [] 0.

(** ** Shapes of a region and of a sequence of calls *)

(** The empty state, the ownership flag apart. *)
Definition empty_state (this : mmap) : Prop :=
  data_ this = nullptr /\ length_ this = 0 /\ mapped_length_ this = 0.

(** A region that is not open is empty. *)
Definition closed_is_empty (this : mmap) : Prop :=
  is_open this = false -> empty_state this.

(** Two regions that differ at most in the ownership flag. *)
Definition same_but_ownership (a b : mmap) : Prop :=
  data_ a = data_ b /\ length_ a = length_ b
  /\ mapped_length_ a = mapped_length_ b /\ file_handle_ a = file_handle_ b.

(** The calls that never open a file themselves. *)
Definition opens_nothing (op : operation) : bool :=
  match op with
  | call_map_path _ _ _ _ => false
  | _ => true
  end.

(** ** Runs of the code on the small system *)

(** A path that names no file. *)
Definition missing_file_call : outcome :=
  map_path (demo_os []) "missing.bin" 0 0 read_only mmap_default
           error_clear boot.

(** A caller that has opened the first file itself, read-only, holds
    descriptor 3. *)
Definition caller_opened (path : string) : world :=
  mk_world [sys_open path O_RDONLY] 0.

(** The same caller with the file opened for reading and writing. *)
Definition caller_opened_rw (path : string) : world :=
  mk_world [sys_open path O_RDWR] 0.

(** An empty file, by path and by the caller's handle. *)
Definition empty_file_by_path : outcome :=
  map_path (demo_os [("empty.bin"%string, 0)]) "empty.bin" 0 0 read_only
           mmap_default error_clear boot.

Definition empty_file_by_handle : outcome :=
  map_handle (demo_os [("empty.bin"%string, 0)]) 3 0 0 read_only
             mmap_default error_clear (caller_opened "empty.bin").

(** A file of ten bytes mapped to its end from offset 5. *)
Definition to_end_from_offset_by_path : outcome :=
  map_path (demo_os [("data.bin"%string, 10)]) "data.bin" 5 0 read_only
           mmap_default error_clear boot.

Definition to_end_from_offset_by_handle : outcome :=
  map_handle (demo_os [("data.bin"%string, 10)]) 3 5 0 read_only
             mmap_default error_clear (caller_opened "data.bin").

(** Two files of ten bytes; the caller holds descriptor 3 on [b.bin]. *)
Definition two_files : os_model :=
  demo_os [("a.bin"%string, 10); ("b.bin"%string, 10)].

(** A region maps [a.bin] by path, then is mapped again on the caller's
    descriptor, and is destroyed. *)
Definition owned_region : mmap * world :=
  run two_files [call_map_path "a.bin" 0 0 read_only]
      (mmap_default, caller_opened "b.bin").

Definition remapped_lifetime : world :=
  lifetime two_files
           [call_map_path "a.bin" 0 0 read_only;
            call_map_handle 3 0 0 read_only]
           (caller_opened "b.bin").

(** A region asks by path for more bytes than the file has, and is
    destroyed. *)
Definition rejected_lifetime : world :=
  lifetime two_files [call_map_path "a.bin" 0 100 read_only] boot.

(** Ten bytes at offset 4106 of a file of 8202 bytes, read-write, on the
    caller's descriptor. *)
Definition paged_os : os_model := demo_os [("data.bin"%string, 8202)].

Definition aligned_call : outcome :=
  map_handle paged_os 3 4106 10 read_write mmap_default error_clear
             (caller_opened_rw "data.bin").

(** The same file to its end, and a request that runs past its end. *)
Definition whole_file_call : outcome :=
  map_handle paged_os 3 0 0 read_only mmap_default error_clear
             (caller_opened "data.bin").

Definition out_of_bounds_call : outcome :=
  map_handle paged_os 3 8000 300 read_only mmap_default error_clear
             (caller_opened "data.bin").

(** A region as a successful [map] leaves it: ten bytes at offset 4106 of
    the file behind descriptor 3, which the region opened itself. *)
Definition mapped_region : mmap := mk_mmap 1048586 10 20 3 true.

(** Two mappings of ten bytes at different addresses, and two memories:
    one all zero, one that differs in the fourth byte of the first
    mapping. *)
Definition other_region : mmap := mk_mmap 2097152 10 10 4 false.

Definition zero_memory : memory := fun _ => x00.

Definition marked_memory : memory :=
  fun p => if p =? 1048586 + 3 then x01 else x00.

(** * Properties *)

(** ** Arithmetic of the machine integers *)

Lemma int64_wrap_small (z : Z) :
  - 2 ^ 63 <= z <= INT64_MAX -> int64_wrap z = z.
Proof.
  unfold int64_wrap, INT64_MAX. intros Hz.
  rewrite Z.mod_small; lia.
Qed.

Lemma size_t_wrap_small (z : Z) :
  0 <= z <= INT64_MAX -> size_t_wrap z = z.
Proof.
  unfold size_t_wrap, INT64_MAX. intros Hz.
  apply Z.mod_small. lia.
Qed.

Lemma page_floor_bounds (P offset : Z) :
  0 < P -> 0 <= offset ->
  0 <= offset / P * P <= offset /\ offset - offset / P * P < P.
Proof.
  intros HP Hoff.
  pose proof (Z.div_mod offset P ltac:(lia)) as Hdm.
  pose proof (Z.mod_pos_bound offset P HP) as Hm.
  assert (0 <= offset / P) by (apply Z.div_pos; lia).
  nia.
Qed.

(** The aligned offset the code computes is the plain round-down when the
    requested offset is a non-negative [int64_t]. *)
Lemma aligned_offset_exact (os : os_model) (offset : Z) :
  0 < page_size os -> 0 <= offset <= INT64_MAX ->
  int64_wrap (make_page_aligned os (size_t_wrap offset))
  = offset / page_size os * page_size os.
Proof.
  intros HP Hoff. unfold make_page_aligned.
  destruct (page_floor_bounds (page_size os) offset HP ltac:(lia)) as [Hb _].
  rewrite (size_t_wrap_small offset Hoff).
  rewrite size_t_wrap_small by lia.
  apply int64_wrap_small. unfold INT64_MAX in *. lia.
Qed.

(** ** The handle test *)

Lemma is_open_true (this : mmap) :
  is_open this = true <-> file_handle_ this <> INVALID_HANDLE_VALUE.
Proof.
  unfold is_open. rewrite negb_true_iff, Z.eqb_neq. tauto.
Qed.

Lemma is_open_false (this : mmap) :
  is_open this = false <-> file_handle_ this = INVALID_HANDLE_VALUE.
Proof.
  unfold is_open. rewrite negb_false_iff, Z.eqb_eq. tauto.
Qed.

(** ** unmap *)

Lemma unmap_not_open (os : os_model) (this : mmap) (w : world) :
  is_open this = false -> unmap os this w = (this, w).
Proof.
  intros Hclosed. unfold unmap. rewrite Hclosed. reflexivity.
Qed.

Lemma unmap_open (os : os_model) (this : mmap) (w : world) :
  is_open this = true ->
  fst (unmap os this w)
  = mk_mmap nullptr 0 0 INVALID_HANDLE_VALUE (is_handle_internal_ this).
Proof.
  intros Hopen. unfold unmap. rewrite Hopen. reflexivity.
Qed.

Lemma unmap_closes_the_region (os : os_model) (this : mmap) (w : world) :
  is_open (fst (unmap os this w)) = false.
Proof.
  destruct (is_open this) eqn:Hopen.
  - rewrite unmap_open by assumption. reflexivity.
  - rewrite unmap_not_open by assumption. exact Hopen.
Qed.

(** C9: [unmap] does nothing on a region that is not open; on an open one
    it leaves [data] null, [length] and [mapped_length] zero and the file
    handle invalid, whatever the operating system answered to [munmap] and
    [close]; either way the region is not open afterwards, and a second
    [unmap] changes neither the region nor the system. *)
Theorem unmap_resets_and_is_idempotent
  (os : os_model) (this : mmap) (w : world) :
  (is_open this = false -> unmap os this w = (this, w))
  /\ (is_open this = true ->
      data_ (fst (unmap os this w)) = nullptr
      /\ length_ (fst (unmap os this w)) = 0
      /\ mapped_length_ (fst (unmap os this w)) = 0
      /\ file_handle_ (fst (unmap os this w)) = INVALID_HANDLE_VALUE)
  /\ is_open (fst (unmap os this w)) = false
  /\ unmap os (fst (unmap os this w)) (snd (unmap os this w))
     = unmap os this w.
Proof.
  split; [ apply unmap_not_open | ].
  split.
  - intros Hopen. rewrite (unmap_open os this w Hopen). repeat split.
  - split; [ apply unmap_closes_the_region | ].
    rewrite unmap_not_open by apply unmap_closes_the_region.
    symmetry. apply surjective_pairing.
Qed.

(** ** map on an open region *)

(** C10: the path-based [map] on a region that is already open, with a path
    that is not empty, opens nothing and maps nothing: the region and the
    system are as before, and the error slot is cleared. *)
Theorem map_path_on_open_region_is_noop
  (os : os_model) (path : string) (offset length : size_type)
  (mode : access_mode) (this : mmap) (error : error_code) (w : world) :
  is_open this = true ->
  empty path = false ->
  map_path os path offset length mode this error w
  = mk_outcome this error_clear w
  /\ error_set (o_error (map_path os path offset length mode this error w))
     = false.
Proof.
  intros Hopen Hpath.
  assert (Hcall : map_path os path offset length mode this error w
                  = mk_outcome this error_clear w).
  { unfold map_path. rewrite Hpath, Hopen. reflexivity. }
  split; [ exact Hcall | rewrite Hcall; reflexivity ].
Qed.

(** ** Equality of regions *)

Lemma byte_eqb_true_iff (x y : byte) : Byte.eqb x y = true <-> x = y.
Proof.
  split; [ apply Byte.byte_dec_bl | apply Byte.byte_dec_lb ].
Qed.

(** [std::equal] compares the two ranges byte by byte. *)
Lemma std_equal_true_iff (mem : memory) (n : nat) :
  forall first1 first2 : pointer,
    std_equal mem first1 n first2 = true
    <-> List.map (fun i => mem (first1 + Z.of_nat i)) (seq 0 n)
        = List.map (fun i => mem (first2 + Z.of_nat i)) (seq 0 n).
Proof.
  induction n as [| n IH]; intros first1 first2; simpl.
  - tauto.
  - rewrite !Z.add_0_r.
    rewrite <- seq_shift, !map_map.
    assert (Hshift : forall p : pointer,
               List.map (fun i => mem (p + Z.of_nat (S i))) (seq 0 n)
               = List.map (fun i => mem (p + 1 + Z.of_nat i)) (seq 0 n)).
    { intros p. apply map_ext. intros i. f_equal. lia. }
    rewrite !Hshift.
    destruct (Byte.eqb (mem first1) (mem first2)) eqn:Hhead.
    + apply byte_eqb_true_iff in Hhead. rewrite IH. split.
      * intros Htail. now rewrite Hhead, Htail.
      * intros Hall. now inversion Hall.
    + split; [ discriminate | ].
      intros Hall. inversion Hall as [[Hh Ht]].
      apply byte_eqb_true_iff in Hh. congruence.
Qed.

Lemma operator_eq_both_mapped (mem : memory) (a b : mmap) :
  is_mapped a = true -> is_mapped b = true ->
  (operator_eq mem a b = true
   <-> size a = size b /\ region_bytes mem a = region_bytes mem b).
Proof.
  intros Ha Hb. unfold operator_eq. rewrite Ha, Hb. simpl.
  rewrite andb_true_iff, Z.eqb_eq, std_equal_true_iff.
  unfold region_bytes, end_, begin_.
  replace (data a + size a - data a) with (size a) by lia.
  split; intros [Hsize Hbytes]; (split; [ exact Hsize | ]).
  - rewrite <- Hsize. exact Hbytes.
  - rewrite <- Hsize in Hbytes. exact Hbytes.
Qed.

(** C8: [operator==] holds exactly when both regions are mapped, of one
    size and with the same bytes, or when neither is mapped; a mapped region
    and an unmapped one are never equal, in either order; [operator!=] is
    the negation of [operator==]. *)
Theorem operator_eq_compares_mapped_content
  (mem : memory) (a b : mmap) :
  (operator_eq mem a b = true
   <-> (is_mapped a = true /\ is_mapped b = true
        /\ size a = size b /\ region_bytes mem a = region_bytes mem b)
       \/ (is_mapped a = false /\ is_mapped b = false))
  /\ (is_mapped a = true -> is_mapped b = false ->
      operator_eq mem a b = false /\ operator_eq mem b a = false)
  /\ operator_ne mem a b = negb (operator_eq mem a b).
Proof.
  split; [ | split ].
  - destruct (is_mapped a) eqn:Ha, (is_mapped b) eqn:Hb.
    + rewrite (operator_eq_both_mapped mem a b Ha Hb). intuition congruence.
    + unfold operator_eq. rewrite Ha, Hb. simpl. intuition congruence.
    + unfold operator_eq. rewrite Ha, Hb. simpl. intuition congruence.
    + unfold operator_eq. rewrite Ha, Hb. simpl. intuition congruence.
  - intros Ha Hb. unfold operator_eq. rewrite Ha, Hb. split; reflexivity.
  - reflexivity.
Qed.

(** ** The steps of map *)

Lemma query_file_size_ok
  (os : os_model) (handle : handle_type) (error : error_code) (w : world) :
  sr_ret (os_fstat os (w_trace w) handle) <> -1 ->
  query_file_size os handle error w
  = (os_st_size os (w_trace w) handle, error_clear,
     mk_world (w_trace w ++ [sys_fstat handle]) (w_errno w)).
Proof.
  intros Hok. apply Z.eqb_neq in Hok.
  unfold query_file_size, posix_fstat, perform. rewrite Hok. reflexivity.
Qed.

Lemma query_file_size_failed
  (os : os_model) (handle : handle_type) (error : error_code) (w : world) :
  sr_ret (os_fstat os (w_trace w) handle) = -1 ->
  query_file_size os handle error w
  = (0,
     mk_error_code (sr_errno (os_fstat os (w_trace w) handle)) system_category,
     mk_world (w_trace w ++ [sys_fstat handle])
              (sr_errno (os_fstat os (w_trace w) handle))).
Proof.
  intros Hfail.
  unfold query_file_size, posix_fstat, perform, last_error.
  rewrite Hfail. reflexivity.
Qed.

(** The private overload, with its request and the answer named. *)
Lemma map_offset_unfold
  (os : os_model) (offset length : size_type) (mode : access_mode)
  (this : mmap) (error : error_code) (w : world) :
  map_offset os offset length mode this error w
  = let answer :=
      mapping_answer os (w_trace w) offset length mode (file_handle_ this) in
    let w1 :=
      mk_world
        (w_trace w ++ [mapping_call os offset length mode (file_handle_ this)])
        (if sr_ret answer =? MAP_FAILED then sr_errno answer else w_errno w) in
    if sr_ret answer =? MAP_FAILED then mk_outcome this (last_error w1) w1
    else
      mk_outcome
        (mk_mmap (sr_ret answer + offset - aligned_offset_of os offset)
                 length (length_to_map_of os offset length)
                 (file_handle_ this) (is_handle_internal_ this))
        error w1.
Proof.
  unfold map_offset, posix_mmap, perform, mapping_answer, mapping_call,
    length_to_map_of, aligned_offset_of, last_error.
  destruct mode; cbn [access_mode_eqb protection_of]; cbv zeta;
    match goal with |- context [if ?c then _ else _] => destruct c end;
    reflexivity.
Qed.

Lemma map_offset_mapped
  (os : os_model) (offset length : size_type) (mode : access_mode)
  (this : mmap) (error : error_code) (w : world) :
  sr_ret (mapping_answer os (w_trace w) offset length mode (file_handle_ this))
  <> MAP_FAILED ->
  map_offset os offset length mode this error w
  = mk_outcome
      (mk_mmap
         (sr_ret (mapping_answer os (w_trace w) offset length mode
                                 (file_handle_ this))
          + offset - aligned_offset_of os offset)
         length (length_to_map_of os offset length)
         (file_handle_ this) (is_handle_internal_ this))
      error
      (mk_world
         (w_trace w ++ [mapping_call os offset length mode (file_handle_ this)])
         (w_errno w)).
Proof.
  intros Hok. apply Z.eqb_neq in Hok.
  rewrite map_offset_unfold. cbv zeta. rewrite Hok. reflexivity.
Qed.

Lemma map_offset_failed
  (os : os_model) (offset length : size_type) (mode : access_mode)
  (this : mmap) (error : error_code) (w : world) :
  sr_ret (mapping_answer os (w_trace w) offset length mode (file_handle_ this))
  = MAP_FAILED ->
  map_offset os offset length mode this error w
  = mk_outcome this
      (mk_error_code
         (sr_errno (mapping_answer os (w_trace w) offset length mode
                                   (file_handle_ this)))
         system_category)
      (mk_world
         (w_trace w ++ [mapping_call os offset length mode (file_handle_ this)])
         (sr_errno (mapping_answer os (w_trace w) offset length mode
                                   (file_handle_ this)))).
Proof.
  intros Hfail.
  rewrite map_offset_unfold. cbv zeta. rewrite Hfail. reflexivity.
Qed.

(** The length the handle-based [map] settles on. *)
Lemma map_handle_unfold
  (os : os_model) (handle : handle_type) (offset length : size_type)
  (mode : access_mode) (this : mmap) (error : error_code) (w : world) :
  handle <> INVALID_HANDLE_VALUE ->
  sr_ret (os_fstat os (w_trace w) handle) <> -1 ->
  map_handle os handle offset length mode this error w
  = let file_size := os_st_size os (w_trace w) handle in
    let w1 := mk_world (w_trace w ++ [sys_fstat handle]) (w_errno w) in
    let this1 :=
      mk_mmap (data_ this) (length_ this) (mapped_length_ this) handle false in
    if length <=? 0 then map_offset os offset file_size mode this1 error_clear w1
    else if int64_wrap (offset + length) >? file_size then
      mk_outcome this (make_error_code invalid_argument) w1
    else map_offset os offset length mode this1 error_clear w1.
Proof.
  intros Hhandle Hstat. apply Z.eqb_neq in Hhandle.
  unfold map_handle. rewrite Hhandle.
  rewrite (query_file_size_ok os handle error_clear w Hstat).
  reflexivity.
Qed.

Lemma map_handle_invalid_handle
  (os : os_model) (offset length : size_type)
  (mode : access_mode) (this : mmap) (error : error_code) (w : world) :
  map_handle os INVALID_HANDLE_VALUE offset length mode this error w
  = mk_outcome this (make_error_code bad_file_descriptor) w.
Proof. reflexivity. Qed.

Lemma map_handle_stat_failed
  (os : os_model) (handle : handle_type) (offset length : size_type)
  (mode : access_mode) (this : mmap) (error : error_code) (w : world) :
  handle <> INVALID_HANDLE_VALUE ->
  sr_ret (os_fstat os (w_trace w) handle) = -1 ->
  sr_errno (os_fstat os (w_trace w) handle) <> 0 ->
  map_handle os handle offset length mode this error w
  = mk_outcome this
      (mk_error_code (sr_errno (os_fstat os (w_trace w) handle))
                     system_category)
      (mk_world (w_trace w ++ [sys_fstat handle])
                (sr_errno (os_fstat os (w_trace w) handle))).
Proof.
  intros Hhandle Hstat Herrno.
  apply Z.eqb_neq in Hhandle. apply Z.eqb_neq in Herrno.
  unfold map_handle. rewrite Hhandle.
  rewrite (query_file_size_failed os handle error_clear w Hstat).
  unfold error_set. cbn [ec_value]. rewrite Herrno. reflexivity.
Qed.

(** A call of the handle-based [map] that leaves the error slot clear went
    through every step. *)
Lemma map_handle_success_inv
  (os : os_model) (handle : handle_type) (offset length : size_type)
  (mode : access_mode) (this : mmap) (error : error_code) (w : world) :
  errno_discipline os ->
  error_set (o_error (map_handle os handle offset length mode this error w))
  = false ->
  handle <> INVALID_HANDLE_VALUE
  /\ sr_ret (os_fstat os (w_trace w) handle) <> -1
  /\ (0 < length ->
      int64_wrap (offset + length) <= os_st_size os (w_trace w) handle)
  /\ sr_ret (mapping_answer os (w_trace w ++ [sys_fstat handle]) offset
               (if length <=? 0 then os_st_size os (w_trace w) handle
                else length)
               mode handle)
     <> MAP_FAILED.
Proof.
  intros (_ & Hfstat & Hmmap) Hclear.
  assert (Hhandle : handle <> INVALID_HANDLE_VALUE).
  { intros ->. rewrite map_handle_invalid_handle in Hclear. discriminate. }
  assert (Hstat : sr_ret (os_fstat os (w_trace w) handle) <> -1).
  { intros Hfail.
    rewrite (map_handle_stat_failed os handle offset length mode this error w
               Hhandle Hfail (Hfstat _ _ Hfail)) in Hclear.
    unfold error_set in Hclear. cbn [o_error ec_value] in Hclear.
    apply negb_false_iff, Z.eqb_eq in Hclear.
    exact (Hfstat _ _ Hfail Hclear). }
  rewrite (map_handle_unfold os handle offset length mode this error w
             Hhandle Hstat) in Hclear.
  cbv zeta in Hclear.
  repeat split; try assumption.
  - intros Hpos.
    destruct (length <=? 0) eqn:Hsentinel; [ lia | ].
    destruct (int64_wrap (offset + length)
              >? os_st_size os (w_trace w) handle) eqn:Hbound.
    + discriminate.
    + lia.
  - intros Hfail.
    destruct (length <=? 0) eqn:Hsentinel.
    + rewrite map_offset_failed in Hclear by exact Hfail.
      unfold error_set in Hclear. cbn [o_error ec_value] in Hclear.
      apply negb_false_iff, Z.eqb_eq in Hclear.
      exact (Hmmap _ _ _ _ _ _ Hfail Hclear).
    + destruct (int64_wrap (offset + length)
                >? os_st_size os (w_trace w) handle) eqn:Hbound;
        [ discriminate | ].
      rewrite map_offset_failed in Hclear by exact Hfail.
      unfold error_set in Hclear. cbn [o_error ec_value] in Hclear.
      apply negb_false_iff, Z.eqb_eq in Hclear.
      exact (Hmmap _ _ _ _ _ _ Hfail Hclear).
Qed.

(** ** Page alignment *)

(** Without overflow the request is the one of plain integer arithmetic. *)
Lemma mapping_request_exact (os : os_model) (offset length : size_type) :
  0 < page_size os -> 0 <= offset -> 0 <= length ->
  offset + length <= INT64_MAX ->
  aligned_offset_of os offset = offset / page_size os * page_size os
  /\ length_to_map_of os offset length
     = offset - offset / page_size os * page_size os + length
  /\ size_t_wrap (length_to_map_of os offset length)
     = offset - offset / page_size os * page_size os + length.
Proof.
  intros HP Hoff Hlen Hsum.
  destruct (page_floor_bounds (page_size os) offset HP Hoff) as [Hfloor _].
  assert (Haligned : aligned_offset_of os offset
                     = offset / page_size os * page_size os).
  { unfold aligned_offset_of. apply aligned_offset_exact; lia. }
  assert (Hspan : length_to_map_of os offset length
                  = offset - offset / page_size os * page_size os + length).
  { unfold length_to_map_of. rewrite Haligned.
    rewrite (int64_wrap_small (offset - _)) by (unfold INT64_MAX in *; lia).
    apply int64_wrap_small. unfold INT64_MAX in *. lia. }
  repeat split; try assumption.
  rewrite Hspan. apply size_t_wrap_small. lia.
Qed.

(** The request and the fields after a successful handle-based [map],
    without overflow. *)
Lemma map_handle_alignment
  (os : os_model) (handle : handle_type) (offset length : size_type)
  (mode : access_mode) (this : mmap) (error : error_code) (w : world) :
  errno_discipline os ->
  0 < page_size os ->
  0 <= offset ->
  0 <= (if length <=? 0 then os_st_size os (w_trace w) handle else length) ->
  offset + (if length <=? 0 then os_st_size os (w_trace w) handle else length)
  <= INT64_MAX ->
  error_set (o_error (map_handle os handle offset length mode this error w))
  = false ->
  let resolved :=
    if length <=? 0 then os_st_size os (w_trace w) handle else length in
  let aligned_offset := offset / page_size os * page_size os in
  let length_to_map := offset - aligned_offset + resolved in
  let r := map_handle os handle offset length mode this error w in
  let mapping_start :=
    sr_ret (os_mmap os (w_trace w ++ [sys_fstat handle]) length_to_map
                    (protection_of mode) MAP_SHARED handle aligned_offset) in
  w_trace (o_world r)
  = w_trace w
    ++ [sys_fstat handle;
        sys_mmap 0 length_to_map (protection_of mode) MAP_SHARED handle
                 aligned_offset]
  /\ data_ (o_this r) = mapping_start + (offset - aligned_offset)
  /\ length_ (o_this r) = resolved
  /\ mapped_length_ (o_this r) = length_to_map
  /\ mapped_length_ (o_this r) - length_ (o_this r) = offset - aligned_offset.
Proof.
  intros Hos HP Hoff Hres Hsum Hclear. cbv zeta.
  destruct (map_handle_success_inv os handle offset length mode this error w
              Hos Hclear) as (Hhandle & Hstat & Hbound & Hmapped).
  rewrite (map_handle_unfold os handle offset length mode this error w
             Hhandle Hstat).
  cbv zeta.
  destruct (length <=? 0) eqn:Hsentinel.
  - destruct (mapping_request_exact os offset _ HP Hoff Hres Hsum)
      as (Haligned & Hspan & Hlen).
    rewrite map_offset_mapped by exact Hmapped.
    cbn [o_this o_world w_trace data_ length_ mapped_length_ file_handle_].
    unfold mapping_call, mapping_answer.
    rewrite Hlen, Hspan, Haligned, <- app_assoc.
    cbn [app]. repeat split; lia.
  - destruct (mapping_request_exact os offset _ HP Hoff Hres Hsum)
      as (Haligned & Hspan & Hlen).
    destruct (int64_wrap (offset + length)
              >? os_st_size os (w_trace w) handle) eqn:Hover.
    + specialize (Hbound ltac:(lia)). lia.
    + rewrite map_offset_mapped by exact Hmapped.
      cbn [o_this o_world w_trace data_ length_ mapped_length_ file_handle_].
      unfold mapping_call, mapping_answer.
      rewrite Hlen, Hspan, Haligned, <- app_assoc.
      cbn [app]. repeat split; lia.
Qed.

(** C4: a successful handle-based [map] asks the mapping primitive for
    [length_to_map = (offset - aligned_offset) + resolved length] bytes at
    [aligned_offset = offset / P * P], and then [data] is the returned start
    plus [offset - aligned_offset], [length] is the resolved length and
    [mapped_length] is [length_to_map], so that their difference is the
    alignment slack. *)
Theorem map_handle_honours_page_alignment
  (os : os_model) (handle : handle_type) (offset length : size_type)
  (mode : access_mode) (this : mmap) (error : error_code) (w : world) :
  errno_discipline os ->
  0 < page_size os ->
  0 <= offset ->
  0 <= (if length <=? 0 then os_st_size os (w_trace w) handle else length) ->
  offset + (if length <=? 0 then os_st_size os (w_trace w) handle else length)
  <= INT64_MAX ->
  error_set (o_error (map_handle os handle offset length mode this error w))
  = false ->
  let resolved :=
    if length <=? 0 then os_st_size os (w_trace w) handle else length in
  let aligned_offset := offset / page_size os * page_size os in
  let length_to_map := offset - aligned_offset + resolved in
  let r := map_handle os handle offset length mode this error w in
  let mapping_start :=
    sr_ret (os_mmap os (w_trace w ++ [sys_fstat handle]) length_to_map
                    (protection_of mode) MAP_SHARED handle aligned_offset) in
  w_trace (o_world r)
  = w_trace w
    ++ [sys_fstat handle;
        sys_mmap 0 length_to_map (protection_of mode) MAP_SHARED handle
                 aligned_offset]
  /\ data_ (o_this r) = mapping_start + (offset - aligned_offset)
  /\ length_ (o_this r) = resolved
  /\ mapped_length_ (o_this r) = length_to_map
  /\ mapped_length_ (o_this r) - length_ (o_this r) = offset - aligned_offset.
Proof.
  exact (map_handle_alignment os handle offset length mode this error w).
Qed.

(** ** The length sentinel and the bounds check *)

(** C5: in the handle-based [map], on a valid handle whose size query
    succeeds, a length that is not positive is no error: the mapping is
    requested for the file's size, and when the primitive maps, the call
    succeeds with [size()] the file's size; a positive length with
    [offset + length] beyond the file's size fails with the invalid-argument
    condition. *)
Theorem map_handle_resolves_length
  (os : os_model) (handle : handle_type) (offset length : size_type)
  (mode : access_mode) (this : mmap) (error : error_code) (w : world) :
  handle <> INVALID_HANDLE_VALUE ->
  sr_ret (os_fstat os (w_trace w) handle) <> -1 ->
  let file_size := os_st_size os (w_trace w) handle in
  let r := map_handle os handle offset length mode this error w in
  (length <= 0 ->
   o_error r <> make_error_code invalid_argument
   /\ w_trace (o_world r)
      = w_trace w
        ++ [sys_fstat handle; mapping_call os offset file_size mode handle]
   /\ (sr_ret (mapping_answer os (w_trace w ++ [sys_fstat handle]) offset
                 file_size mode handle) <> MAP_FAILED ->
       error_set (o_error r) = false /\ size (o_this r) = file_size)
   /\ (errno_discipline os -> error_set (o_error r) = false ->
       size (o_this r) = file_size))
  /\ (0 < length -> 0 <= offset -> offset + length <= INT64_MAX ->
      file_size < offset + length ->
      o_error r = make_error_code invalid_argument
      /\ is_condition (o_error r) invalid_argument = true
      /\ error_set (o_error r) = true).
Proof.
  intros Hhandle Hstat. cbv zeta.
  rewrite (map_handle_unfold os handle offset length mode this error w
             Hhandle Hstat).
  cbv zeta. split.
  - intros Hsentinel. apply Z.leb_le in Hsentinel. rewrite Hsentinel.
    destruct (Z.eq_dec
                (sr_ret (mapping_answer os (w_trace w ++ [sys_fstat handle])
                           offset (os_st_size os (w_trace w) handle) mode
                           handle))
                MAP_FAILED) as [Hfail | Hmapped].
    + rewrite map_offset_failed by exact Hfail.
      cbn [o_error o_world o_this w_trace file_handle_].
      rewrite <- app_assoc. cbn [app].
      split; [ discriminate | ].
      split; [ reflexivity | ].
      split; [ intros Hno; contradiction | ].
      intros (_ & _ & Hmmap) Hclear.
      unfold error_set in Hclear. cbn [ec_value] in Hclear.
      apply negb_false_iff, Z.eqb_eq in Hclear.
      exfalso. exact (Hmmap _ _ _ _ _ _ Hfail Hclear).
    + rewrite map_offset_mapped by exact Hmapped.
      cbn [o_error o_world o_this w_trace file_handle_].
      rewrite <- app_assoc. cbn [app].
      split; [ discriminate | ].
      split; [ reflexivity | ].
      split; intros; try split; reflexivity.
  - intros Hpos Hoff Hsum Hover.
    assert (Hnot : (length <=? 0) = false) by (apply Z.leb_gt; lia).
    rewrite Hnot.
    rewrite (int64_wrap_small (offset + length))
      by (unfold INT64_MAX in *; lia).
    assert (Hgt : (offset + length >? os_st_size os (w_trace w) handle) = true)
      by (apply Z.gtb_lt; lia).
    rewrite Hgt. repeat split.
Qed.

(** ** The path-based map before the mapping steps *)

Lemma map_path_empty_path
  (os : os_model) (path : string) (offset length : size_type)
  (mode : access_mode) (this : mmap) (error : error_code) (w : world) :
  empty path = true ->
  map_path os path offset length mode this error w
  = mk_outcome this (make_error_code invalid_argument) w.
Proof.
  intros Hempty. unfold map_path. rewrite Hempty. reflexivity.
Qed.

Lemma open_file_unfold
  (os : os_model) (path : string) (mode : access_mode)
  (error : error_code) (w : world) :
  empty path = false ->
  open_file os path mode error w
  = let answer := os_open os (w_trace w) path (open_flags_of mode) in
    let w1 :=
      mk_world (w_trace w ++ [sys_open path (open_flags_of mode)])
               (if sr_ret answer =? -1 then sr_errno answer else w_errno w) in
    (sr_ret answer,
     if sr_ret answer =? INVALID_HANDLE_VALUE then last_error w1
     else error_clear,
     w1).
Proof.
  intros Hpath. unfold open_file, posix_open, perform. rewrite Hpath.
  destruct mode; cbn [access_mode_eqb open_flags_of]; cbv zeta;
    match goal with |- context [?x =? INVALID_HANDLE_VALUE] =>
      destruct (x =? INVALID_HANDLE_VALUE) end;
    reflexivity.
Qed.

Lemma map_path_open_failed
  (os : os_model) (path : string) (offset length : size_type)
  (mode : access_mode) (this : mmap) (error : error_code) (w : world) :
  empty path = false ->
  is_open this = false ->
  sr_ret (os_open os (w_trace w) path (open_flags_of mode))
  = INVALID_HANDLE_VALUE ->
  sr_errno (os_open os (w_trace w) path (open_flags_of mode)) <> 0 ->
  map_path os path offset length mode this error w
  = mk_outcome this
      (mk_error_code
         (sr_errno (os_open os (w_trace w) path (open_flags_of mode)))
         system_category)
      (mk_world
         (w_trace w ++ [sys_open path (open_flags_of mode)])
         (sr_errno (os_open os (w_trace w) path (open_flags_of mode)))).
Proof.
  intros Hpath Hclosed Hfail Herrno. apply Z.eqb_neq in Herrno.
  unfold map_path. rewrite Hpath, Hclosed. cbn [negb].
  rewrite (open_file_unfold os path mode error_clear w Hpath). cbv zeta.
  rewrite Hfail. cbn [Z.eqb INVALID_HANDLE_VALUE Pos.eqb].
  unfold error_set, last_error. cbn [ec_value w_errno].
  rewrite Herrno. reflexivity.
Qed.

(** C6, as the code has it: with an empty path the path-based [map] fails
    with the invalid-argument condition and makes no system call; when the
    region is not open and [open] fails, the error is the platform's last
    error ([errno] in the system category), and [open] is the only system
    call made: neither the size query nor the mapping is attempted.  In both
    cases the region is as before. *)
Theorem map_path_fails_before_mapping
  (os : os_model) (path : string) (offset length : size_type)
  (mode : access_mode) (this : mmap) (error : error_code) (w : world) :
  (empty path = true ->
   map_path os path offset length mode this error w
   = mk_outcome this (make_error_code invalid_argument) w)
  /\ (empty path = false ->
      is_open this = false ->
      sr_ret (os_open os (w_trace w) path (open_flags_of mode))
      = INVALID_HANDLE_VALUE ->
      sr_errno (os_open os (w_trace w) path (open_flags_of mode)) <> 0 ->
      map_path os path offset length mode this error w
      = mk_outcome this
          (mk_error_code
             (sr_errno (os_open os (w_trace w) path (open_flags_of mode)))
             system_category)
          (mk_world
             (w_trace w ++ [sys_open path (open_flags_of mode)])
             (sr_errno (os_open os (w_trace w) path (open_flags_of mode))))).
Proof.
  split; [ apply map_path_empty_path | apply map_path_open_failed ].
Qed.

(** C6 as stated fails: opening a path that names no file fails with
    [ENOENT], and that, not the bad-descriptor condition, is the error the
    path-based [map] reports. *)
Lemma map_path_open_failure_is_not_bad_descriptor :
  sr_ret (os_open (demo_os []) (w_trace boot) "missing.bin" O_RDONLY)
  = INVALID_HANDLE_VALUE
  /\ w_trace (o_world missing_file_call) = [sys_open "missing.bin" O_RDONLY]
  /\ o_error missing_file_call = mk_error_code ENOENT system_category
  /\ is_condition (o_error missing_file_call) bad_file_descriptor = false
  /\ o_error missing_file_call <> make_error_code bad_file_descriptor.
Proof.
  repeat split; try reflexivity. discriminate.
Qed.

(** ** Where a failed map leaves the region *)

(** The mapping primitive is called after [file_handle_] is assigned: when
    it fails, the handle stays in the region. *)
Lemma map_handle_mapping_failed
  (os : os_model) (handle : handle_type) (offset : size_type)
  (mode : access_mode) (this : mmap) (error : error_code) (w : world) :
  handle <> INVALID_HANDLE_VALUE ->
  sr_ret (os_fstat os (w_trace w) handle) <> -1 ->
  sr_ret (mapping_answer os (w_trace w ++ [sys_fstat handle]) offset
            (os_st_size os (w_trace w) handle) mode handle) = MAP_FAILED ->
  o_this (map_handle os handle offset 0 mode this error w)
  = mk_mmap (data_ this) (length_ this) (mapped_length_ this) handle false.
Proof.
  intros Hhandle Hstat Hfail.
  rewrite (map_handle_unfold os handle offset 0 mode this error w
             Hhandle Hstat).
  cbv zeta. cbn [Z.leb Z.compare].
  rewrite map_offset_failed by exact Hfail. reflexivity.
Qed.

(** C1 fails on the code: mapping an empty file makes the mapping primitive
    fail with [EINVAL]; the call reports the error, yet the region, which was
    not open, now holds the descriptor and is open; through the path-based
    overload it is marked as owning it as well. *)
Theorem failed_map_leaves_region_open :
  is_open mmap_default = false
  /\ o_error empty_file_by_handle = mk_error_code EINVAL system_category
  /\ error_set (o_error empty_file_by_handle) = true
  /\ file_handle_ (o_this empty_file_by_handle) = 3
  /\ is_open (o_this empty_file_by_handle) = true
  /\ o_error empty_file_by_path = mk_error_code EINVAL system_category
  /\ error_set (o_error empty_file_by_path) = true
  /\ is_open (o_this empty_file_by_path) = true
  /\ is_handle_internal_ (o_this empty_file_by_path) = true
  /\ is_handle_internal_ mmap_default = false.
Proof.
  repeat split.
Qed.

(** ** Closing the file handle *)

Lemma closes_app (fd : handle_type) (t1 t2 : trace) :
  closes fd (t1 ++ t2) = (closes fd t1 + closes fd t2)%nat.
Proof.
  unfold closes. rewrite filter_app. apply length_app.
Qed.

(** Tearing down a region that owns its handle closes it once, and tearing
    it down again closes nothing. *)
Lemma unmap_closes_owned_handle_once
  (os : os_model) (this : mmap) (w : world) :
  is_open this = true ->
  is_handle_internal_ this = true ->
  closes (file_handle_ this) (w_trace (snd (unmap os this w)))
  = S (closes (file_handle_ this) (w_trace w))
  /\ snd (unmap os (fst (unmap os this w)) (snd (unmap os this w)))
     = snd (unmap os this w).
Proof.
  intros Hopen Howned. split.
  - unfold unmap. rewrite Hopen, Howned. cbn [negb snd].
    unfold posix_close, posix_munmap, perform. cbn [snd w_trace].
    destruct (data_ this =? nullptr); cbn [negb w_trace];
      rewrite ?closes_app; cbn [closes filter is_close_of List.length];
      rewrite Z.eqb_refl; cbn [List.length]; lia.
  - rewrite unmap_not_open by apply unmap_closes_the_region. reflexivity.
Qed.

(** A region that does not own its handle closes nothing. *)
Lemma unmap_keeps_foreign_handle
  (os : os_model) (this : mmap) (w : world) (fd : handle_type) :
  is_handle_internal_ this = false ->
  closes fd (w_trace (snd (unmap os this w))) = closes fd (w_trace w).
Proof.
  intros Hforeign. unfold unmap.
  destruct (is_open this); cbn [negb snd]; [ | reflexivity ].
  rewrite Hforeign.
  unfold posix_munmap, perform. cbn [snd w_trace].
  destruct (data_ this =? nullptr); cbn [negb w_trace]; [ reflexivity | ].
  rewrite closes_app. cbn. lia.
Qed.

(** C2 fails on the code: a region that opened descriptor 4 itself and is
    then mapped on the caller's descriptor 3 forgets descriptor 4, which is
    never closed; and a path-based [map] that is rejected after its [open]
    has succeeded never closes the descriptor it opened. *)
Theorem owned_handle_is_never_closed :
  file_handle_ (fst owned_region) = 4
  /\ is_handle_internal_ (fst owned_region) = true
  /\ w_trace remapped_lifetime
     = [sys_open "b.bin" O_RDONLY;
        sys_open "a.bin" O_RDONLY; sys_fstat 4;
        sys_mmap 0 10 PROT_READ MAP_SHARED 4 0;
        sys_fstat 3; sys_mmap 0 10 PROT_READ MAP_SHARED 3 0;
        sys_munmap 2097152 10]
  /\ closes 4 (w_trace remapped_lifetime) = 0%nat
  /\ w_trace rejected_lifetime = [sys_open "a.bin" O_RDONLY; sys_fstat 3]
  /\ closes 3 (w_trace rejected_lifetime) = 0%nat.
Proof.
  repeat split.
Qed.

(** ** Mapping to the end of the file *)

(** C3 fails on the code: a file of ten bytes mapped from offset 5 with the
    map-to-end sentinel yields a region of ten bytes, which ends five bytes
    past the end of the file; so by handle and by path. *)
Theorem map_to_end_from_offset_exceeds_file :
  os_st_size (demo_os [("data.bin"%string, 10)])
             (w_trace (caller_opened "data.bin")) 3 = 10
  /\ error_set (o_error to_end_from_offset_by_handle) = false
  /\ size (o_this to_end_from_offset_by_handle) = 10
  /\ 5 + size (o_this to_end_from_offset_by_handle) > 10
  /\ error_set (o_error to_end_from_offset_by_path) = false
  /\ size (o_this to_end_from_offset_by_path) = 10
  /\ 5 + size (o_this to_end_from_offset_by_path) > 10.
Proof.
  repeat split.
Qed.

(** ** Protection flags *)

(** C7 fails on the code: in read-write mode the mapping primitive is asked
    for [PROT_WRITE] alone, which does not include [PROT_READ]; in read-only
    mode it is asked for [PROT_READ]. *)
Theorem read_write_requests_write_protection_only
  (os : os_model) (offset length : size_type)
  (this : mmap) (error : error_code) (w : world) :
  w_trace (o_world (map_offset os offset length read_write this error w))
  = w_trace w
    ++ [sys_mmap 0 (size_t_wrap (length_to_map_of os offset length))
                 PROT_WRITE MAP_SHARED (file_handle_ this)
                 (aligned_offset_of os offset)]
  /\ prot_writable PROT_WRITE = true
  /\ prot_readable PROT_WRITE = false
  /\ w_trace (o_world (map_offset os offset length read_only this error w))
     = w_trace w
       ++ [sys_mmap 0 (size_t_wrap (length_to_map_of os offset length))
                    PROT_READ MAP_SHARED (file_handle_ this)
                    (aligned_offset_of os offset)]
  /\ prot_readable PROT_READ = true
  /\ prot_writable PROT_READ = false.
Proof.
  rewrite !map_offset_unfold. cbv zeta.
  unfold mapping_call, mapping_answer. cbn [protection_of].
  repeat split;
    match goal with
    | |- context [if ?c then _ else _] => destruct c; reflexivity
    | |- _ => reflexivity
    end.
Qed.

(** ** The path-based map as a caller of the handle-based one *)

(** On a region that is not open, once [open] has succeeded, the path-based
    [map] is the handle-based one on the new descriptor, followed by the
    assignment of the ownership flag. *)
Lemma map_path_delegates
  (os : os_model) (path : string) (offset length : size_type)
  (mode : access_mode) (this : mmap) (error : error_code) (w : world) :
  empty path = false ->
  is_open this = false ->
  sr_ret (os_open os (w_trace w) path (open_flags_of mode))
  <> INVALID_HANDLE_VALUE ->
  map_path os path offset length mode this error w
  = let handle := sr_ret (os_open os (w_trace w) path (open_flags_of mode)) in
    let w1 :=
      mk_world (w_trace w ++ [sys_open path (open_flags_of mode)])
               (w_errno w) in
    let r := map_handle os handle offset length mode this error_clear w1 in
    mk_outcome
      (mk_mmap (data_ (o_this r)) (length_ (o_this r))
               (mapped_length_ (o_this r)) (file_handle_ (o_this r)) true)
      (o_error r) (o_world r).
Proof.
  intros Hpath Hclosed Hopened.
  unfold map_path. rewrite Hpath, Hclosed. cbn [negb].
  rewrite (open_file_unfold os path mode error_clear w Hpath). cbv zeta.
  assert (Hret : (sr_ret (os_open os (w_trace w) path (open_flags_of mode))
                  =? -1) = false) by (apply Z.eqb_neq; exact Hopened).
  change INVALID_HANDLE_VALUE with (-1). rewrite Hret. reflexivity.
Qed.

(** The same alignment through the path-based [map] on a region that is
    not open: the request follows the [open] and the size query. *)
Lemma map_path_honours_page_alignment
  (os : os_model) (path : string) (offset length : size_type)
  (mode : access_mode) (this : mmap) (error : error_code) (w : world) :
  errno_discipline os ->
  0 < page_size os ->
  0 <= offset ->
  is_open this = false ->
  let handle := sr_ret (os_open os (w_trace w) path (open_flags_of mode)) in
  let t1 := w_trace w ++ [sys_open path (open_flags_of mode)] in
  let resolved := if length <=? 0 then os_st_size os t1 handle else length in
  0 <= resolved ->
  offset + resolved <= INT64_MAX ->
  error_set (o_error (map_path os path offset length mode this error w))
  = false ->
  let aligned_offset := offset / page_size os * page_size os in
  let length_to_map := offset - aligned_offset + resolved in
  let r := map_path os path offset length mode this error w in
  w_trace (o_world r)
  = t1 ++ [sys_fstat handle;
           sys_mmap 0 length_to_map (protection_of mode) MAP_SHARED handle
                    aligned_offset]
  /\ data_ (o_this r)
     = sr_ret (os_mmap os (t1 ++ [sys_fstat handle]) length_to_map
                       (protection_of mode) MAP_SHARED handle aligned_offset)
       + (offset - aligned_offset)
  /\ length_ (o_this r) = resolved
  /\ mapped_length_ (o_this r) = length_to_map
  /\ is_handle_internal_ (o_this r) = true.
Proof.
  intros Hos HP Hoff Hclosed. cbv zeta. intros Hres Hsum Hclear.
  assert (Hpath : empty path = false).
  { destruct (empty path) eqn:Hempty; [ | reflexivity ].
    rewrite map_path_empty_path in Hclear by exact Hempty. discriminate. }
  assert (Hopened : sr_ret (os_open os (w_trace w) path (open_flags_of mode))
                    <> INVALID_HANDLE_VALUE).
  { intros Hfail. pose proof Hos as (Hopen & _).
    specialize (Hopen _ _ _ Hfail).
    rewrite (map_path_open_failed os path offset length mode this error w
               Hpath Hclosed Hfail Hopen) in Hclear.
    unfold error_set in Hclear. cbn [o_error ec_value] in Hclear.
    apply negb_false_iff, Z.eqb_eq in Hclear. contradiction. }
  rewrite (map_path_delegates os path offset length mode this error w
             Hpath Hclosed Hopened) in Hclear |- *.
  cbv zeta in Hclear |- *.
  cbn [o_this o_error o_world data_ length_ mapped_length_
       is_handle_internal_] in Hclear |- *.
  pose proof (map_handle_alignment os _ offset length mode this
                error_clear
                (mk_world (w_trace w ++ [sys_open path (open_flags_of mode)])
                          (w_errno w))
                Hos HP Hoff Hres Hsum Hclear) as Hmap.
  cbv zeta in Hmap. cbn [w_trace] in Hmap.
  destruct Hmap as (Htrace & Hdata & Hlength & Hmapped & _).
  repeat split; assumption.
Qed.

(** ** Moving a region *)

(** The source of a move is left not open, so destroying it touches nothing;
    handle and ownership flag travel together. *)
Lemma move_construct_transfers (os : os_model) (other : mmap) (w : world) :
  fst (move_construct other) = other
  /\ is_open (snd (move_construct other)) = false
  /\ destroy os (snd (move_construct other)) w = w.
Proof.
  destruct other as [d l ml fh own]. repeat split.
Qed.

Lemma move_assign_transfers
  (os : os_model) (this other : mmap) (w : world) :
  fst (fst (move_assign os this other w)) = other
  /\ snd (fst (move_assign os this other w)) = mmap_default
  /\ snd (move_assign os this other w) = destroy os this w.
Proof.
  unfold move_assign, destroy.
  destruct (unmap os this w) as [this' w1].
  destruct other as [d l ml fh own]. repeat split.
Qed.

(** ** The small system at work *)

Lemma demo_os_errno_discipline (files : list (string * Z)) :
  errno_discipline (demo_os files).
Proof.
  unfold errno_discipline, demo_os. cbn [os_open os_fstat os_mmap].
  repeat split.
  - intros t path oflag.
    destruct (file_size_of files path); cbn [sr_ret sr_errno]; intros Hret.
    + lia.
    + discriminate.
  - intros t fd.
    destruct (descriptor_size files t fd); cbn [sr_ret sr_errno];
      intros Hret; discriminate.
  - intros t len prot flags fd off.
    destruct ((len =? 0) || negb (off mod 4096 =? 0));
      cbn [sr_ret sr_errno]; [ discriminate | ].
    destruct (descriptor_size files t fd); cbn [sr_ret sr_errno];
      [ | discriminate ].
    unfold MAP_FAILED, mappings_made. lia.
Qed.

(** Ten bytes at offset 4106 with pages of 4096 bytes: twenty bytes are
    mapped from offset 4096, and [data] is ten bytes into them. *)
Lemma map_handle_honours_page_alignment_witness :
  error_set (o_error aligned_call) = false
  /\ w_trace (o_world aligned_call)
     = [sys_open "data.bin" O_RDWR; sys_fstat 3;
        sys_mmap 0 20 PROT_WRITE MAP_SHARED 3 4096]
  /\ data_ (o_this aligned_call) = 1048576 + (4106 - 4096)
  /\ length_ (o_this aligned_call) = 10
  /\ mapped_length_ (o_this aligned_call) = 20
  /\ mapped_length_ (o_this aligned_call) - length_ (o_this aligned_call)
     = 4106 - 4096.
Proof.
  split; [ reflexivity | ].
  apply (map_handle_honours_page_alignment paged_os 3 4106 10 read_write
           mmap_default error_clear (caller_opened_rw "data.bin")).
  - apply demo_os_errno_discipline.
  - reflexivity.
  - vm_compute. discriminate.
  - vm_compute. discriminate.
  - vm_compute. discriminate.
  - reflexivity.
Defined.

(** The whole file through the sentinel, and 300 bytes at offset 8000 of
    8202. *)
Lemma map_handle_resolves_length_witness :
  (o_error whole_file_call <> make_error_code invalid_argument
   /\ error_set (o_error whole_file_call) = false
   /\ size (o_this whole_file_call) = 8202)
  /\ o_error out_of_bounds_call = make_error_code invalid_argument.
Proof.
  pose proof (map_handle_resolves_length paged_os 3 0 0 read_only
                mmap_default error_clear (caller_opened "data.bin")
                ltac:(discriminate) ltac:(vm_compute; discriminate))
    as [Hsentinel _].
  pose proof (map_handle_resolves_length paged_os 3 8000 300 read_only
                mmap_default error_clear (caller_opened "data.bin")
                ltac:(discriminate) ltac:(vm_compute; discriminate))
    as [_ Hbounds].
  split.
  - destruct (Hsentinel ltac:(vm_compute; discriminate))
      as (Hnot & _ & Hmapped & _).
    split; [ exact Hnot | ].
    apply Hmapped. vm_compute. discriminate.
  - apply Hbounds.
    + reflexivity.
    + vm_compute. discriminate.
    + vm_compute. discriminate.
    + reflexivity.
Defined.

(** The empty path, and a path that names no file. *)
Lemma map_path_fails_before_mapping_witness :
  map_path (demo_os []) "" 0 0 read_only mmap_default error_clear boot
  = mk_outcome mmap_default (make_error_code invalid_argument) boot
  /\ missing_file_call
     = mk_outcome mmap_default (mk_error_code ENOENT system_category)
                  (mk_world [sys_open "missing.bin" O_RDONLY] ENOENT).
Proof.
  split.
  - apply (map_path_fails_before_mapping (demo_os []) "" 0 0 read_only
             mmap_default error_clear boot).
    reflexivity.
  - apply (map_path_fails_before_mapping (demo_os []) "missing.bin" 0 0
             read_only mmap_default error_clear boot).
    + reflexivity.
    + reflexivity.
    + reflexivity.
    + vm_compute. discriminate.
Defined.

(** An open region asked to map another file by path. *)
Lemma map_path_on_open_region_is_noop_witness :
  map_path paged_os "other.bin" 0 0 read_write mapped_region
           (make_error_code bad_file_descriptor) boot
  = mk_outcome mapped_region error_clear boot.
Proof.
  apply (map_path_on_open_region_is_noop paged_os "other.bin" 0 0 read_write
           mapped_region (make_error_code bad_file_descriptor) boot).
  - reflexivity.
  - reflexivity.
Defined.

(** Tearing down an open region that owns its handle, twice. *)
Lemma unmap_resets_and_is_idempotent_witness :
  is_open mapped_region = true
  /\ fst (unmap paged_os mapped_region boot)
     = mk_mmap nullptr 0 0 INVALID_HANDLE_VALUE true
  /\ unmap paged_os (fst (unmap paged_os mapped_region boot))
           (snd (unmap paged_os mapped_region boot))
     = unmap paged_os mapped_region boot.
Proof.
  split; [ reflexivity | ].
  split; [ reflexivity | ].
  apply (unmap_resets_and_is_idempotent paged_os mapped_region boot).
Defined.

(** Equal bytes at different addresses, one differing byte, a mapped and an
    unmapped region, two unmapped regions. *)
Lemma operator_eq_compares_mapped_content_witness :
  operator_eq zero_memory mapped_region other_region = true
  /\ operator_eq marked_memory mapped_region other_region = false
  /\ operator_eq zero_memory mapped_region mmap_default = false
  /\ operator_eq zero_memory mmap_default mmap_default = true.
Proof.
  split.
  - apply (operator_eq_compares_mapped_content zero_memory mapped_region
             other_region).
    left. repeat split.
  - split; [ reflexivity | ].
    split; [ | reflexivity ].
    apply (operator_eq_compares_mapped_content zero_memory mapped_region
             mmap_default); reflexivity.
Defined.

(** * Further properties of the code *)

(** ** Page rounding and the halves of a 64-bit integer *)

(** X1: for a positive page size and an offset that fits [size_t],
    [make_page_aligned] returns a multiple of the page size that is at most
    the offset and less than a page below it, and an aligned offset is left
    as it is. *)
Theorem make_page_aligned_rounds_down (os : os_model) (offset : Z) :
  0 < page_size os ->
  0 <= offset < 2 ^ 64 ->
  make_page_aligned os offset mod page_size os = 0
  /\ 0 <= make_page_aligned os offset <= offset
  /\ offset - make_page_aligned os offset < page_size os
  /\ make_page_aligned os (make_page_aligned os offset)
     = make_page_aligned os offset.
Proof.
  intros HP Hoff.
  destruct (page_floor_bounds (page_size os) offset HP ltac:(lia))
    as [Hfloor Hslack].
  assert (Haligned : make_page_aligned os offset
                     = offset / page_size os * page_size os).
  { unfold make_page_aligned, size_t_wrap. apply Z.mod_small. lia. }
  rewrite Haligned.
  split; [ apply Z.mod_mul; lia | ].
  split; [ exact Hfloor | ].
  split; [ exact Hslack | ].
  unfold make_page_aligned, size_t_wrap.
  rewrite Z.div_mul by lia.
  apply Z.mod_small. lia.
Qed.

(** X2: [int64_high] and [int64_low] are 32-bit values that put together
    give back the 64 bits of their argument, and the argument itself when
    it is not negative. *)
Theorem int64_halves_reassemble (n : Z) :
  0 <= int64_low n < 2 ^ 32
  /\ 0 <= int64_high n < 2 ^ 32
  /\ int64_high n * 2 ^ 32 + int64_low n = size_t_wrap n
  /\ (0 <= n <= INT64_MAX -> int64_high n * 2 ^ 32 + int64_low n = n).
Proof.
  assert (Hlow : int64_low n = n mod 2 ^ 32).
  { unfold int64_low, dword_wrap.
    change 0xffffffff with (Z.ones 32).
    rewrite Z.land_ones by lia. apply Z.mod_mod. lia. }
  assert (Hhigh : int64_high n = (n / 2 ^ 32) mod 2 ^ 32).
  { unfold int64_high, dword_wrap. rewrite Z.shiftr_div_pow2 by lia.
    reflexivity. }
  assert (Hsum : int64_high n * 2 ^ 32 + int64_low n = size_t_wrap n).
  { rewrite Hlow, Hhigh. unfold size_t_wrap.
    change (2 ^ 64) with (2 ^ 32 * 2 ^ 32).
    rewrite Z.rem_mul_r by lia. lia. }
  split; [ rewrite Hlow; apply Z.mod_pos_bound; lia | ].
  split; [ rewrite Hhigh; apply Z.mod_pos_bound; lia | ].
  split; [ exact Hsum | ].
  intros Hn. rewrite Hsum. apply size_t_wrap_small. exact Hn.
Qed.

(** ** Opening a file and asking for its size *)

(** X3: [open_file] makes no system call for an empty path and exactly one
    [open], with [O_RDONLY] or [O_RDWR] by the mode, otherwise; on a system
    whose failed calls set [errno], the error slot is set exactly when the
    returned handle is the invalid one. *)
Theorem open_file_error_iff_invalid_handle
  (os : os_model) (path : string) (mode : access_mode)
  (error : error_code) (w : world) :
  errno_discipline os ->
  (error_set (snd (fst (open_file os path mode error w))) = true
   <-> fst (fst (open_file os path mode error w)) = INVALID_HANDLE_VALUE)
  /\ (empty path = true ->
      open_file os path mode error w
      = (INVALID_HANDLE_VALUE, make_error_code invalid_argument, w))
  /\ (empty path = false ->
      w_trace (snd (open_file os path mode error w))
      = w_trace w ++ [sys_open path (open_flags_of mode)]
      /\ fst (fst (open_file os path mode error w))
         = sr_ret (os_open os (w_trace w) path (open_flags_of mode))).
Proof.
  intros (Hopen & _ & _).
  destruct (empty path) eqn:Hpath.
  - assert (Hcall : open_file os path mode error w
                    = (INVALID_HANDLE_VALUE,
                       make_error_code invalid_argument, w)).
    { unfold open_file. rewrite Hpath. reflexivity. }
    rewrite Hcall. cbn [fst snd].
    split; [ split; reflexivity | ].
    split; [ reflexivity | discriminate ].
  - rewrite (open_file_unfold os path mode error w Hpath). cbv zeta.
    cbn [fst snd w_trace].
    split; [ | split; [ discriminate | split; reflexivity ] ].
    destruct (Z.eq_dec
                (sr_ret (os_open os (w_trace w) path (open_flags_of mode)))
                INVALID_HANDLE_VALUE) as [Hfail | Hok].
    + rewrite Hfail. cbn [Z.eqb INVALID_HANDLE_VALUE Pos.eqb].
      unfold error_set, last_error. cbn [ec_value w_errno].
      specialize (Hopen _ _ _ Hfail). apply Z.eqb_neq in Hopen.
      rewrite Hopen. split; reflexivity.
    + pose proof Hok as Hneq. apply Z.eqb_neq in Hneq. rewrite Hneq.
      split; [ discriminate | contradiction ].
Qed.

(** X4: [query_file_size] makes exactly one [fstat]; when [fstat] fails it
    returns 0 with the last error in the slot, otherwise the reported size
    with the slot clear; on a system whose failed calls set [errno] the slot
    is set exactly when [fstat] failed. *)
Theorem query_file_size_reports_fstat
  (os : os_model) (handle : handle_type) (error : error_code) (w : world) :
  errno_discipline os ->
  w_trace (snd (query_file_size os handle error w))
  = w_trace w ++ [sys_fstat handle]
  /\ (error_set (snd (fst (query_file_size os handle error w))) = true
      <-> sr_ret (os_fstat os (w_trace w) handle) = -1)
  /\ (sr_ret (os_fstat os (w_trace w) handle) = -1 ->
      fst (query_file_size os handle error w)
      = (0, mk_error_code (sr_errno (os_fstat os (w_trace w) handle))
                          system_category))
  /\ (sr_ret (os_fstat os (w_trace w) handle) <> -1 ->
      fst (query_file_size os handle error w)
      = (os_st_size os (w_trace w) handle, error_clear)).
Proof.
  intros (_ & Hfstat & _).
  destruct (Z.eq_dec (sr_ret (os_fstat os (w_trace w) handle)) (-1))
    as [Hfail | Hok].
  - rewrite (query_file_size_failed os handle error w Hfail).
    cbn [fst snd w_trace]. split; [ reflexivity | ].
    split.
    + unfold error_set. cbn [ec_value].
      specialize (Hfstat _ _ Hfail). apply Z.eqb_neq in Hfstat.
      rewrite Hfstat. split; [ intros _; exact Hfail | reflexivity ].
    + split; [ reflexivity | contradiction ].
  - rewrite (query_file_size_ok os handle error w Hok).
    cbn [fst snd w_trace]. split; [ reflexivity | ].
    split; [ split; [ discriminate | contradiction ] | ].
    split; [ contradiction | reflexivity ].
Qed.

(** ** What the handle-based map touches *)

Lemma map_offset_frame
  (os : os_model) (offset length : size_type) (mode : access_mode)
  (this : mmap) (error : error_code) (w : world) :
  w_trace (o_world (map_offset os offset length mode this error w))
  = w_trace w ++ [mapping_call os offset length mode (file_handle_ this)]
  /\ file_handle_ (o_this (map_offset os offset length mode this error w))
     = file_handle_ this
  /\ is_handle_internal_
       (o_this (map_offset os offset length mode this error w))
     = is_handle_internal_ this.
Proof.
  rewrite map_offset_unfold. cbv zeta.
  destruct (sr_ret (mapping_answer os (w_trace w) offset length mode
                                   (file_handle_ this)) =? MAP_FAILED);
    repeat split.
Qed.

(** The two ways a handle-based [map] can go. *)
Lemma map_handle_cases
  (os : os_model) (handle : handle_type) (offset length : size_type)
  (mode : access_mode) (this : mmap) (error : error_code) (w : world) :
  (o_this (map_handle os handle offset length mode this error w) = this
   /\ error_set (o_error (map_handle os handle offset length mode this
                                     error w)) = true
   /\ (w_trace (o_world (map_handle os handle offset length mode this
                                    error w)) = w_trace w
       \/ w_trace (o_world (map_handle os handle offset length mode this
                                       error w))
          = w_trace w ++ [sys_fstat handle]))
  \/ (handle <> INVALID_HANDLE_VALUE
      /\ exists resolved,
         w_trace (o_world (map_handle os handle offset length mode this
                                      error w))
         = w_trace w
           ++ [sys_fstat handle; mapping_call os offset resolved mode handle]
         /\ file_handle_ (o_this (map_handle os handle offset length mode
                                             this error w)) = handle
         /\ is_handle_internal_
              (o_this (map_handle os handle offset length mode this error w))
            = false).
Proof.
  unfold map_handle.
  destruct (handle =? INVALID_HANDLE_VALUE) eqn:Hhandle;
    [ left; repeat split; now left | ].
  apply Z.eqb_neq in Hhandle.
  destruct (query_file_size os handle error_clear w)
    as [[file_size err] w1] eqn:Hquery.
  assert (Htrace : w_trace w1 = w_trace w ++ [sys_fstat handle]).
  { unfold query_file_size, posix_fstat, perform in Hquery.
    destruct (sr_ret (os_fstat os (w_trace w) handle) =? -1);
      inversion Hquery; reflexivity. }
  destruct (error_set err) eqn:Herr;
    [ left; cbn [o_this o_error o_world]; repeat split;
      [ exact Herr | right; exact Htrace ] | ].
  assert (Hmapped : forall resolved,
    let r :=
      map_offset os offset resolved mode
        (mk_mmap (data_ this) (length_ this) (mapped_length_ this) handle
                 false) err w1 in
    w_trace (o_world r)
    = w_trace w
      ++ [sys_fstat handle; mapping_call os offset resolved mode handle]
    /\ file_handle_ (o_this r) = handle
    /\ is_handle_internal_ (o_this r) = false).
  { intros resolved. cbv zeta.
    destruct (map_offset_frame os offset resolved mode
                (mk_mmap (data_ this) (length_ this) (mapped_length_ this)
                         handle false) err w1) as (Ht & Hh & Hf).
    rewrite Ht, Hh, Hf, Htrace, <- app_assoc. repeat split. }
  destruct (length <=? 0).
  - right. split; [ exact Hhandle | ]. exists file_size. apply Hmapped.
  - destruct (int64_wrap (offset + length) >? file_size).
    + left. cbn [o_this o_error o_world]. repeat split. right. exact Htrace.
    + right. split; [ exact Hhandle | ]. exists length. apply Hmapped.
Qed.

(** X5: the handle-based [map] either fails before the mapping primitive,
    with the error slot set, the region as it was and at most the size query
    made; or it calls the mapping primitive right after the size query, and
    then the region holds the handle and does not own it. *)
Theorem map_handle_touches_region_only_to_map
  (os : os_model) (handle : handle_type) (offset length : size_type)
  (mode : access_mode) (this : mmap) (error : error_code) (w : world) :
  (o_this (map_handle os handle offset length mode this error w) = this
   /\ error_set (o_error (map_handle os handle offset length mode this
                                     error w)) = true
   /\ (w_trace (o_world (map_handle os handle offset length mode this
                                    error w)) = w_trace w
       \/ w_trace (o_world (map_handle os handle offset length mode this
                                       error w))
          = w_trace w ++ [sys_fstat handle]))
  \/ (exists resolved,
         w_trace (o_world (map_handle os handle offset length mode this
                                      error w))
         = w_trace w
           ++ [sys_fstat handle; mapping_call os offset resolved mode handle]
         /\ file_handle_ (o_this (map_handle os handle offset length mode
                                             this error w)) = handle
         /\ is_handle_internal_
              (o_this (map_handle os handle offset length mode this error w))
            = false).
Proof.
  destruct (map_handle_cases os handle offset length mode this error w)
    as [Hearly | (_ & Hmapped)]; [ left | right ]; assumption.
Qed.

(** ** The error slot *)

Lemma system_error_unset_is_clear (e : error_code) :
  ec_category e = system_category -> error_set e = false -> e = error_clear.
Proof.
  destruct e as [v c]. unfold error_set. cbn [ec_value ec_category].
  intros -> Hv. apply negb_false_iff, Z.eqb_eq in Hv. subst v. reflexivity.
Qed.

Lemma map_offset_error_category
  (os : os_model) (offset length : size_type) (mode : access_mode)
  (this : mmap) (error : error_code) (w : world) :
  ec_category error = system_category ->
  ec_category (o_error (map_offset os offset length mode this error w))
  = system_category.
Proof.
  intros Hcat. rewrite map_offset_unfold. cbv zeta.
  destruct (sr_ret (mapping_answer os (w_trace w) offset length mode
                                   (file_handle_ this)) =? MAP_FAILED);
    [ reflexivity | exact Hcat ].
Qed.

Lemma map_handle_unset_is_clear
  (os : os_model) (handle : handle_type) (offset length : size_type)
  (mode : access_mode) (this : mmap) (error : error_code) (w : world) :
  error_set (o_error (map_handle os handle offset length mode this error w))
  = false ->
  o_error (map_handle os handle offset length mode this error w)
  = error_clear.
Proof.
  intros Hunset. apply system_error_unset_is_clear; [ | exact Hunset ].
  revert Hunset. unfold map_handle.
  destruct (handle =? INVALID_HANDLE_VALUE); [ discriminate | ].
  destruct (query_file_size os handle error_clear w)
    as [[file_size err] w1] eqn:Hquery.
  assert (Hcat : ec_category err = system_category).
  { unfold query_file_size, posix_fstat, perform in Hquery.
    destruct (sr_ret (os_fstat os (w_trace w) handle) =? -1);
      inversion Hquery; reflexivity. }
  destruct (error_set err) eqn:Herr; [ cbn [o_error]; congruence | ].
  destruct (length <=? 0);
    [ intros _; apply map_offset_error_category; exact Hcat | ].
  destruct (int64_wrap (offset + length) >? file_size); [ discriminate | ].
  intros _. apply map_offset_error_category. exact Hcat.
Qed.

(** The ways a path-based [map] can go. *)
Lemma map_path_cases
  (os : os_model) (path : string) (offset length : size_type)
  (mode : access_mode) (this : mmap) (error : error_code) (w : world) :
  (empty path = true
   /\ map_path os path offset length mode this error w
      = mk_outcome this (make_error_code invalid_argument) w)
  \/ (empty path = false /\ is_open this = true
      /\ map_path os path offset length mode this error w
         = mk_outcome this error_clear w)
  \/ (empty path = false /\ is_open this = false
      /\ sr_ret (os_open os (w_trace w) path (open_flags_of mode))
         = INVALID_HANDLE_VALUE
      /\ sr_errno (os_open os (w_trace w) path (open_flags_of mode)) <> 0
      /\ map_path os path offset length mode this error w
         = mk_outcome this
             (mk_error_code
                (sr_errno (os_open os (w_trace w) path (open_flags_of mode)))
                system_category)
             (mk_world
                (w_trace w ++ [sys_open path (open_flags_of mode)])
                (sr_errno (os_open os (w_trace w) path
                                   (open_flags_of mode)))))
  \/ (empty path = false /\ is_open this = false
      /\ exists w1,
        w_trace w1 = w_trace w ++ [sys_open path (open_flags_of mode)]
        /\ map_path os path offset length mode this error w
           = let r :=
               map_handle os
                 (sr_ret (os_open os (w_trace w) path (open_flags_of mode)))
                 offset length mode this error_clear w1 in
             mk_outcome
               (mk_mmap (data_ (o_this r)) (length_ (o_this r))
                        (mapped_length_ (o_this r)) (file_handle_ (o_this r))
                        true)
               (o_error r) (o_world r)).
Proof.
  destruct (empty path) eqn:Hpath.
  { left. split; [ reflexivity | ]. now apply map_path_empty_path. }
  right. destruct (is_open this) eqn:Hopen.
  { left. repeat split.
    unfold map_path. rewrite Hpath, Hopen. reflexivity. }
  right.
  destruct (Z.eq_dec
              (sr_ret (os_open os (w_trace w) path (open_flags_of mode)))
              INVALID_HANDLE_VALUE) as [Hfail | Hok].
  - destruct (Z.eq_dec
                (sr_errno (os_open os (w_trace w) path (open_flags_of mode)))
                0) as [Hzero | Herrno].
    + right. repeat split.
      exists (mk_world (w_trace w ++ [sys_open path (open_flags_of mode)]) 0).
      split; [ reflexivity | ].
      unfold map_path. rewrite Hpath, Hopen. cbn [negb].
      rewrite (open_file_unfold os path mode error_clear w Hpath). cbv zeta.
      rewrite Hfail. cbn [Z.eqb INVALID_HANDLE_VALUE Pos.eqb].
      unfold error_set, last_error. cbn [ec_value w_errno].
      rewrite Hzero. reflexivity.
    + left. repeat split; try assumption.
      now apply map_path_open_failed.
  - right. repeat split.
    exists (mk_world (w_trace w ++ [sys_open path (open_flags_of mode)])
                     (w_errno w)).
    split; [ reflexivity | ].
    now apply map_path_delegates.
Qed.

Lemma map_path_unset_is_clear
  (os : os_model) (path : string) (offset length : size_type)
  (mode : access_mode) (this : mmap) (error : error_code) (w : world) :
  error_set (o_error (map_path os path offset length mode this error w))
  = false ->
  o_error (map_path os path offset length mode this error w) = error_clear.
Proof.
  destruct (map_path_cases os path offset length mode this error w)
    as [(_ & ->) | [(_ & _ & ->) | [(_ & _ & _ & Herrno & ->)
                                   | (_ & _ & w1 & _ & ->)]]];
    cbv zeta; cbn [o_error].
  - discriminate.
  - reflexivity.
  - unfold error_set. cbn [ec_value]. apply Z.eqb_neq in Herrno.
    rewrite Herrno. discriminate.
  - apply map_handle_unset_is_clear.
Qed.

Lemma sync_cases (os : os_model) (this : mmap) (error : error_code)
  (w : world) :
  (is_open this = false
   /\ sync os this error w = (make_error_code bad_file_descriptor, w))
  \/ (is_open this = true /\ data_ this = nullptr
      /\ sync os this error w = (error_clear, w))
  \/ (is_open this = true /\ data_ this <> nullptr
      /\ w_trace (snd (sync os this error w))
         = w_trace w
           ++ [sys_msync (get_mapping_start this)
                         (size_t_wrap (mapped_length_ this)) MS_SYNC]
      /\ ec_category (fst (sync os this error w)) = system_category
      /\ (sr_ret (os_msync os (w_trace w) (get_mapping_start this)
                           (size_t_wrap (mapped_length_ this)) MS_SYNC) = 0 ->
          fst (sync os this error w) = error_clear)).
Proof.
  unfold sync, data.
  destruct (is_open this); cbn [negb]; [ right | left; split; reflexivity ].
  destruct (data_ this =? nullptr) eqn:Hdata; cbn [negb].
  - left. apply Z.eqb_eq in Hdata. repeat split. exact Hdata.
  - right. apply Z.eqb_neq in Hdata.
    split; [ reflexivity | ]. split; [ exact Hdata | ].
    unfold posix_msync, perform.
    destruct (sr_ret (os_msync os (w_trace w) (get_mapping_start this)
                               (size_t_wrap (mapped_length_ this)) MS_SYNC)
              =? 0) eqn:Hret;
      cbn [negb fst snd w_trace]; repeat split.
    intros Hzero. apply Z.eqb_neq in Hret. contradiction.
Qed.

(** X6: both public [map] overloads and [sync] clear the error slot at
    entry: what they return does not depend on what the slot held, and a
    call that leaves the slot unset leaves it exactly cleared. *)
Theorem error_slot_is_cleared_at_entry
  (os : os_model) (path : string) (handle : handle_type)
  (offset length : size_type) (mode : access_mode) (this : mmap)
  (stale error : error_code) (w : world) :
  map_handle os handle offset length mode this stale w
  = map_handle os handle offset length mode this error w
  /\ map_path os path offset length mode this stale w
     = map_path os path offset length mode this error w
  /\ sync os this stale w = sync os this error w
  /\ (error_set (o_error (map_handle os handle offset length mode this
                                     stale w)) = false ->
      o_error (map_handle os handle offset length mode this stale w)
      = error_clear)
  /\ (error_set (o_error (map_path os path offset length mode this stale w))
      = false ->
      o_error (map_path os path offset length mode this stale w)
      = error_clear)
  /\ (error_set (fst (sync os this stale w)) = false ->
      fst (sync os this stale w) = error_clear).
Proof.
  split; [ reflexivity | ].
  split; [ reflexivity | ].
  split; [ reflexivity | ].
  split; [ apply map_handle_unset_is_clear | ].
  split; [ apply map_path_unset_is_clear | ].
  destruct (sync_cases os this stale w)
    as [(_ & ->) | [(_ & _ & ->) | (_ & _ & _ & Hcat & _)]]; cbn [fst].
  - discriminate.
  - reflexivity.
  - apply system_error_unset_is_clear. exact Hcat.
Qed.

(** ** Who closes the file handle *)

(** [unmap] closes one descriptor at most: its own, when the region is open
    and owns it. *)
Lemma closes_after_unmap
  (os : os_model) (this : mmap) (w : world) (fd : handle_type) :
  closes fd (w_trace (snd (unmap os this w)))
  = (closes fd (w_trace w)
     + (if is_open this && is_handle_internal_ this
           && (file_handle_ this =? fd)%Z
        then 1 else 0))%nat.
Proof.
  unfold unmap.
  destruct (is_open this); cbn [negb andb snd]; [ | lia ].
  unfold posix_close, posix_munmap, perform. cbn [snd w_trace].
  destruct (is_handle_internal_ this), (data_ this =? nullptr);
    cbn [negb andb snd w_trace];
    rewrite ?closes_app; cbn [closes filter is_close_of List.length];
    try destruct (file_handle_ this =? fd); cbn [List.length]; lia.
Qed.

Lemma unmap_keeps_flag (os : os_model) (this : mmap) (w : world) :
  is_handle_internal_ (fst (unmap os this w)) = is_handle_internal_ this.
Proof.
  unfold unmap. destruct (is_open this); reflexivity.
Qed.

Lemma map_handle_closes_nothing
  (os : os_model) (handle : handle_type) (offset length : size_type)
  (mode : access_mode) (this : mmap) (error : error_code) (w : world)
  (fd : handle_type) :
  closes fd (w_trace (o_world (map_handle os handle offset length mode this
                                          error w)))
  = closes fd (w_trace w).
Proof.
  destruct (map_handle_cases os handle offset length mode this error w)
    as [(_ & _ & [-> | ->]) | (_ & resolved & -> & _)];
    rewrite ?closes_app; cbn; lia.
Qed.

Lemma sync_closes_nothing
  (os : os_model) (this : mmap) (error : error_code) (w : world)
  (fd : handle_type) :
  closes fd (w_trace (snd (sync os this error w))) = closes fd (w_trace w).
Proof.
  destruct (sync_cases os this error w)
    as [(_ & ->) | [(_ & _ & ->) | (_ & _ & -> & _)]];
    cbn [snd]; rewrite ?closes_app; cbn; lia.
Qed.

(** X7: after a handle-based [map] that leaves the error slot unset the
    region holds the caller's handle and does not own it, the call itself
    has closed nothing, and destroying the region closes nothing either:
    the caller's handle stays open. *)
Theorem caller_handle_is_never_closed
  (os : os_model) (handle : handle_type) (offset length : size_type)
  (mode : access_mode) (this : mmap) (error : error_code) (w : world) :
  error_set (o_error (map_handle os handle offset length mode this error w))
  = false ->
  file_handle_ (o_this (map_handle os handle offset length mode this error w))
  = handle
  /\ is_handle_internal_
       (o_this (map_handle os handle offset length mode this error w))
     = false
  /\ forall fd,
      closes fd
        (w_trace
           (destroy os
              (o_this (map_handle os handle offset length mode this error w))
              (o_world (map_handle os handle offset length mode this
                                   error w))))
      = closes fd (w_trace w).
Proof.
  intros Hunset.
  destruct (map_handle_cases os handle offset length mode this error w)
    as [(_ & Hset & _) | (_ & resolved & _ & Hhandle & Hforeign)];
    [ congruence | ].
  split; [ exact Hhandle | ]. split; [ exact Hforeign | ].
  intros fd. unfold destroy.
  rewrite closes_after_unmap, Hforeign, andb_false_r.
  cbn [andb]. rewrite map_handle_closes_nothing. lia.
Qed.

(** A region that does not own its handle keeps not owning it through the
    handle-based [map], [sync] and [unmap], and these close nothing. *)
Lemma step_without_open_closes_nothing
  (os : os_model) (op : operation) (this : mmap) (w : world) :
  opens_nothing op = true ->
  is_handle_internal_ this = false ->
  is_handle_internal_ (fst (step os op (this, w))) = false
  /\ forall fd,
      closes fd (w_trace (snd (step os op (this, w)))) = closes fd (w_trace w).
Proof.
  intros Hop Hforeign.
  destruct op as [path offset length mode | handle offset length mode | | ];
    [ discriminate | | | ]; cbn [step fst snd].
  - split; [ | intros fd; apply map_handle_closes_nothing ].
    destruct (map_handle_cases os handle offset length mode this error_clear w)
      as [(-> & _) | (_ & resolved & _ & _ & Hflag)]; assumption.
  - split; [ exact Hforeign | intros fd; apply sync_closes_nothing ].
  - split; [ rewrite unmap_keeps_flag; exact Hforeign | ].
    intros fd. rewrite closes_after_unmap, Hforeign, andb_false_r.
    cbn [andb]. lia.
Qed.

(** X8: a region that owns no handle and is used through any sequence of
    handle-based [map], [sync] and [unmap] calls, and then destroyed, never
    closes a descriptor. *)
Theorem handle_based_use_never_closes
  (os : os_model) (ops : list operation) (this : mmap) (w : world) :
  forallb opens_nothing ops = true ->
  is_handle_internal_ this = false ->
  is_handle_internal_ (fst (run os ops (this, w))) = false
  /\ forall fd,
      closes fd
        (w_trace (destroy os (fst (run os ops (this, w)))
                          (snd (run os ops (this, w)))))
      = closes fd (w_trace w).
Proof.
  revert this w.
  induction ops as [| op ops IH]; intros this w Hops Hforeign.
  - cbn [run fold_left fst snd]. split; [ exact Hforeign | ].
    intros fd. unfold destroy.
    rewrite closes_after_unmap, Hforeign, andb_false_r. cbn [andb]. lia.
  - cbn [forallb] in Hops. apply andb_true_iff in Hops as [Hop Hrest].
    destruct (step_without_open_closes_nothing os op this w Hop Hforeign)
      as [Hflag Hcloses].
    change (run os (op :: ops) (this, w))
      with (run os ops (step os op (this, w))).
    destruct (step os op (this, w)) as [this1 w1] eqn:Hstep.
    cbn [fst snd] in Hflag, Hcloses.
    destruct (IH this1 w1 Hrest Hflag) as [Hfinal Hcount].
    split; [ exact Hfinal | ].
    intros fd. rewrite Hcount. apply Hcloses.
Qed.

(** X9: a path-based [map] on a region that is not open, when it leaves the
    error slot unset, has stored the descriptor that [open] returned and
    marked it as owned without closing anything; destroying the region then
    closes that descriptor exactly once and no other, and a further teardown
    of what is left makes no system call. *)
Theorem owned_handle_is_closed_once
  (os : os_model) (path : string) (offset length : size_type)
  (mode : access_mode) (this : mmap) (error : error_code) (w : world) :
  is_open this = false ->
  error_set (o_error (map_path os path offset length mode this error w))
  = false ->
  let r := map_path os path offset length mode this error w in
  let opened := sr_ret (os_open os (w_trace w) path (open_flags_of mode)) in
  file_handle_ (o_this r) = opened
  /\ opened <> INVALID_HANDLE_VALUE
  /\ is_handle_internal_ (o_this r) = true
  /\ (forall fd, closes fd (w_trace (o_world r)) = closes fd (w_trace w))
  /\ closes opened (w_trace (destroy os (o_this r) (o_world r)))
     = S (closes opened (w_trace w))
  /\ (forall fd, fd <> opened ->
      closes fd (w_trace (destroy os (o_this r) (o_world r)))
      = closes fd (w_trace w))
  /\ destroy os (fst (unmap os (o_this r) (o_world r)))
             (destroy os (o_this r) (o_world r))
     = destroy os (o_this r) (o_world r).
Proof.
  intros Hclosed Hunset. cbv zeta.
  destruct (map_path_cases os path offset length mode this error w)
    as [(_ & Hcall) | [(_ & Hopen & _) | [(_ & _ & _ & Herrno & Hcall)
                                         | (_ & _ & w1 & Hw1 & Hcall)]]].
  - rewrite Hcall in Hunset. discriminate.
  - congruence.
  - rewrite Hcall in Hunset. unfold error_set in Hunset.
    cbn [o_error ec_value] in Hunset.
    apply negb_false_iff, Z.eqb_eq in Hunset. contradiction.
  - rewrite Hcall in Hunset |- *. cbv zeta in Hunset |- *.
    cbn [o_this o_error o_world file_handle_ is_handle_internal_]
      in Hunset |- *.
    destruct (map_handle_cases os
                (sr_ret (os_open os (w_trace w) path (open_flags_of mode)))
                offset length mode this error_clear w1)
      as [(_ & Hset & _) | (Hvalid & resolved & Htrace & Hhandle & _)];
      [ congruence | ].
    assert (Hmap : forall fd,
      closes fd
        (w_trace
           (o_world
              (map_handle os
                 (sr_ret (os_open os (w_trace w) path (open_flags_of mode)))
                 offset length mode this error_clear w1)))
      = closes fd (w_trace w)).
    { intros fd. rewrite map_handle_closes_nothing, Hw1, closes_app.
      cbn. lia. }
    split; [ exact Hhandle | ]. split; [ exact Hvalid | ].
    split; [ reflexivity | ]. split; [ exact Hmap | ].
    unfold destroy.
    split; [ | split ].
    + rewrite closes_after_unmap, Hmap. unfold is_open.
      cbn [file_handle_ is_handle_internal_]. rewrite Hhandle.
      apply Z.eqb_neq in Hvalid. rewrite Hvalid, Z.eqb_refl.
      cbn [negb andb]. lia.
    + intros fd Hother. rewrite closes_after_unmap, Hmap.
      cbn [file_handle_ is_handle_internal_]. rewrite Hhandle.
      assert (Hneq : (sr_ret (os_open os (w_trace w) path (open_flags_of mode))
                      =? fd) = false) by (apply Z.eqb_neq; congruence).
      rewrite Hneq, andb_false_r. lia.
    + rewrite unmap_not_open by apply unmap_closes_the_region. reflexivity.
Qed.

(** ** From map to sync and unmap *)

(** The region a successful handle-based [map] leaves, without overflow. *)
Lemma map_handle_success_region
  (os : os_model) (handle : handle_type) (offset length : size_type)
  (mode : access_mode) (this : mmap) (error : error_code) (w : world) :
  errno_discipline os ->
  0 < page_size os ->
  0 <= offset ->
  0 <= (if length <=? 0 then os_st_size os (w_trace w) handle else length) ->
  offset + (if length <=? 0 then os_st_size os (w_trace w) handle else length)
  <= INT64_MAX ->
  error_set (o_error (map_handle os handle offset length mode this error w))
  = false ->
  let resolved :=
    if length <=? 0 then os_st_size os (w_trace w) handle else length in
  let aligned_offset := offset / page_size os * page_size os in
  let length_to_map := offset - aligned_offset + resolved in
  let mapping_start :=
    sr_ret (os_mmap os (w_trace w ++ [sys_fstat handle]) length_to_map
                    (protection_of mode) MAP_SHARED handle aligned_offset) in
  o_this (map_handle os handle offset length mode this error w)
  = mk_mmap (mapping_start + (offset - aligned_offset)) resolved length_to_map
            handle false
  /\ handle <> INVALID_HANDLE_VALUE
  /\ 0 <= offset - aligned_offset <= INT64_MAX
  /\ 0 <= length_to_map <= INT64_MAX.
Proof.
  intros Hos HP Hoff Hres Hsum Hunset. cbv zeta.
  pose proof (map_handle_alignment os handle offset length mode this error w
                Hos HP Hoff Hres Hsum Hunset) as Hfields.
  cbv zeta in Hfields.
  destruct Hfields as (_ & Hdata & Hlength & Hmapped & _).
  destruct (map_handle_cases os handle offset length mode this error w)
    as [(_ & Hset & _) | (Hvalid & _ & _ & Hhandle & Hforeign)];
    [ congruence | ].
  destruct (page_floor_bounds (page_size os) offset HP Hoff) as [Hfloor _].
  destruct (o_this (map_handle os handle offset length mode this error w))
    as [d l ml fh own].
  cbn [data_ length_ mapped_length_ file_handle_ is_handle_internal_] in *.
  destruct (length <=? 0);
    (split; [ congruence | ]); (split; [ exact Hvalid | ]); split; lia.
Qed.

(** On a region with data whose two lengths differ by an [int64_t] amount,
    [get_mapping_start] steps back by that amount. *)
Lemma get_mapping_start_exact (this : mmap) :
  data_ this <> nullptr ->
  - 2 ^ 63 <= mapped_length_ this - length_ this <= INT64_MAX ->
  get_mapping_start this
  = data_ this - (mapped_length_ this - length_ this).
Proof.
  intros Hdata Hrange. unfold get_mapping_start.
  apply Z.eqb_neq in Hdata. rewrite Hdata.
  cbv zeta. rewrite int64_wrap_small by exact Hrange. reflexivity.
Qed.

(** On an open region with data and lengths in range, [unmap] releases the
    span that starts [mapped_length - length] bytes before [data]. *)
Lemma unmap_releases_span (os : os_model) (this : mmap) (w : world) :
  is_open this = true ->
  data_ this <> nullptr ->
  - 2 ^ 63 <= mapped_length_ this - length_ this <= INT64_MAX ->
  0 <= mapped_length_ this <= INT64_MAX ->
  is_handle_internal_ this = false ->
  w_trace (snd (unmap os this w))
  = w_trace w
    ++ [sys_munmap (data_ this - (mapped_length_ this - length_ this))
                   (mapped_length_ this)].
Proof.
  intros Hopen Hdata Hslack Hspan Hforeign.
  unfold unmap. rewrite Hopen, Hforeign.
  rewrite (get_mapping_start_exact this Hdata Hslack).
  apply Z.eqb_neq in Hdata. rewrite Hdata. cbn [negb snd].
  unfold posix_munmap, perform. cbn [snd w_trace].
  rewrite size_t_wrap_small by exact Hspan. reflexivity.
Qed.

(** On the same region [sync] flushes that span, and reports the last
    error when [msync] does not return 0. *)
Lemma sync_flushes_span
  (os : os_model) (this : mmap) (error : error_code) (w : world) :
  is_open this = true ->
  data_ this <> nullptr ->
  - 2 ^ 63 <= mapped_length_ this - length_ this <= INT64_MAX ->
  0 <= mapped_length_ this <= INT64_MAX ->
  w_trace (snd (sync os this error w))
  = w_trace w
    ++ [sys_msync (data_ this - (mapped_length_ this - length_ this))
                  (mapped_length_ this) MS_SYNC]
  /\ (sr_ret (os_msync os (w_trace w)
                 (data_ this - (mapped_length_ this - length_ this))
                 (mapped_length_ this) MS_SYNC) = 0 ->
      fst (sync os this error w) = error_clear)
  /\ (sr_ret (os_msync os (w_trace w)
                 (data_ this - (mapped_length_ this - length_ this))
                 (mapped_length_ this) MS_SYNC) = -1 ->
      fst (sync os this error w)
      = mk_error_code
          (sr_errno (os_msync os (w_trace w)
                       (data_ this - (mapped_length_ this - length_ this))
                       (mapped_length_ this) MS_SYNC))
          system_category).
Proof.
  intros Hopen Hdata Hslack Hspan.
  unfold sync, data. rewrite Hopen.
  rewrite (get_mapping_start_exact this Hdata Hslack).
  apply Z.eqb_neq in Hdata. rewrite Hdata. cbn [negb].
  unfold posix_msync, perform, last_error.
  rewrite size_t_wrap_small by exact Hspan.
  destruct (sr_ret (os_msync os (w_trace w)
                      (data_ this - (mapped_length_ this - length_ this))
                      (mapped_length_ this) MS_SYNC) =? 0) eqn:Hzero;
    cbn [negb fst snd w_trace w_errno].
  - apply Z.eqb_eq in Hzero. repeat split. intros Hfail. congruence.
  - apply Z.eqb_neq in Hzero. split; [ reflexivity | ].
    split; [ intros Hret; contradiction | ].
    intros Hfail. rewrite Hfail. reflexivity.
Qed.

(** The region a [map] leaves, [delta] bytes into a mapping at [start]:
    [get_mapping_start] finds [start] again, [unmap] releases and [sync]
    flushes the whole mapping. *)
Lemma mapped_span_is_recovered
  (os : os_model) (start delta len : Z) (handle : handle_type)
  (error : error_code) (w : world) :
  handle <> INVALID_HANDLE_VALUE ->
  0 <= delta <= INT64_MAX ->
  0 <= delta + len <= INT64_MAX ->
  start + delta <> nullptr ->
  get_mapping_start (mk_mmap (start + delta) len (delta + len) handle false)
  = start
  /\ w_trace
       (snd (unmap os (mk_mmap (start + delta) len (delta + len) handle false)
                   w))
     = w_trace w ++ [sys_munmap start (delta + len)]
  /\ w_trace
       (snd (sync os (mk_mmap (start + delta) len (delta + len) handle false)
                  error w))
     = w_trace w ++ [sys_msync start (delta + len) MS_SYNC]
  /\ (sr_ret (os_msync os (w_trace w) start (delta + len) MS_SYNC) = 0 ->
      fst (sync os (mk_mmap (start + delta) len (delta + len) handle false)
                error w) = error_clear)
  /\ (sr_ret (os_msync os (w_trace w) start (delta + len) MS_SYNC) = -1 ->
      fst (sync os (mk_mmap (start + delta) len (delta + len) handle false)
                error w)
      = mk_error_code
          (sr_errno (os_msync os (w_trace w) start (delta + len) MS_SYNC))
          system_category).
Proof.
  intros Hvalid Hdelta Hspan Hdata.
  set (this := mk_mmap (start + delta) len (delta + len) handle false).
  assert (Hopen : is_open this = true) by (apply is_open_true; exact Hvalid).
  assert (Hslack : - 2 ^ 63 <= mapped_length_ this - length_ this
                   <= INT64_MAX)
    by (cbn [this mapped_length_ length_]; unfold INT64_MAX in *; lia).
  assert (Hback : data_ this - (mapped_length_ this - length_ this) = start)
    by (cbn [this data_ mapped_length_ length_]; lia).
  split.
  { rewrite (get_mapping_start_exact this Hdata Hslack). exact Hback. }
  split.
  { rewrite (unmap_releases_span os this w Hopen Hdata Hslack Hspan eq_refl).
    rewrite Hback. reflexivity. }
  destruct (sync_flushes_span os this error w Hopen Hdata Hslack Hspan)
    as (Htrace & Hok & Hfail).
  rewrite Hback in Htrace, Hok, Hfail.
  repeat split; assumption.
Qed.

(** X10: after a successful handle-based [map] whose [data] is not null,
    [get_mapping_start] is the address the mapping primitive returned, and
    [unmap] makes one system call: [munmap] of that address with the mapped
    length; the caller's handle is not closed. *)
Theorem unmap_releases_what_map_mapped
  (os : os_model) (handle : handle_type) (offset length : size_type)
  (mode : access_mode) (this : mmap) (error : error_code) (w : world) :
  errno_discipline os ->
  0 < page_size os ->
  0 <= offset ->
  0 <= (if length <=? 0 then os_st_size os (w_trace w) handle else length) ->
  offset + (if length <=? 0 then os_st_size os (w_trace w) handle else length)
  <= INT64_MAX ->
  error_set (o_error (map_handle os handle offset length mode this error w))
  = false ->
  data_ (o_this (map_handle os handle offset length mode this error w))
  <> nullptr ->
  let resolved :=
    if length <=? 0 then os_st_size os (w_trace w) handle else length in
  let aligned_offset := offset / page_size os * page_size os in
  let length_to_map := offset - aligned_offset + resolved in
  let mapping_start :=
    sr_ret (os_mmap os (w_trace w ++ [sys_fstat handle]) length_to_map
                    (protection_of mode) MAP_SHARED handle aligned_offset) in
  let r := map_handle os handle offset length mode this error w in
  get_mapping_start (o_this r) = mapping_start
  /\ w_trace (snd (unmap os (o_this r) (o_world r)))
     = w_trace (o_world r) ++ [sys_munmap mapping_start length_to_map]
  /\ is_open (fst (unmap os (o_this r) (o_world r))) = false.
Proof.
  intros Hos HP Hoff Hres Hsum Hunset Hdata. cbv zeta.
  pose proof (map_handle_success_region os handle offset length mode this
                error w Hos HP Hoff Hres Hsum Hunset) as Hregion.
  cbv zeta in Hregion.
  destruct Hregion as (Hregion & Hvalid & Hslack & Hspan).
  rewrite Hregion in Hdata |- *. cbn [data_] in Hdata.
  destruct (mapped_span_is_recovered os _ _ _ handle error
              (o_world (map_handle os handle offset length mode this error w))
              Hvalid Hslack Hspan Hdata)
    as (Hstart & Hunmap & _).
  split; [ exact Hstart | ].
  split; [ exact Hunmap | apply unmap_closes_the_region ].
Qed.

(** X11: after a successful handle-based [map] whose [data] is not null,
    [sync] makes one system call: [msync], synchronous, of the address the
    mapping primitive returned with the mapped length; it leaves the slot
    clear when [msync] returns 0 and reports [errno] when it returns -1. *)
Theorem sync_flushes_what_map_mapped
  (os : os_model) (handle : handle_type) (offset length : size_type)
  (mode : access_mode) (this : mmap) (error stale : error_code) (w : world) :
  errno_discipline os ->
  0 < page_size os ->
  0 <= offset ->
  0 <= (if length <=? 0 then os_st_size os (w_trace w) handle else length) ->
  offset + (if length <=? 0 then os_st_size os (w_trace w) handle else length)
  <= INT64_MAX ->
  error_set (o_error (map_handle os handle offset length mode this error w))
  = false ->
  data_ (o_this (map_handle os handle offset length mode this error w))
  <> nullptr ->
  let resolved :=
    if length <=? 0 then os_st_size os (w_trace w) handle else length in
  let aligned_offset := offset / page_size os * page_size os in
  let length_to_map := offset - aligned_offset + resolved in
  let mapping_start :=
    sr_ret (os_mmap os (w_trace w ++ [sys_fstat handle]) length_to_map
                    (protection_of mode) MAP_SHARED handle aligned_offset) in
  let r := map_handle os handle offset length mode this error w in
  w_trace (snd (sync os (o_this r) stale (o_world r)))
  = w_trace (o_world r) ++ [sys_msync mapping_start length_to_map MS_SYNC]
  /\ (sr_ret (os_msync os (w_trace (o_world r)) mapping_start length_to_map
                       MS_SYNC) = 0 ->
      fst (sync os (o_this r) stale (o_world r)) = error_clear)
  /\ (sr_ret (os_msync os (w_trace (o_world r)) mapping_start length_to_map
                       MS_SYNC) = -1 ->
      fst (sync os (o_this r) stale (o_world r))
      = mk_error_code
          (sr_errno (os_msync os (w_trace (o_world r)) mapping_start
                              length_to_map MS_SYNC))
          system_category).
Proof.
  intros Hos HP Hoff Hres Hsum Hunset Hdata. cbv zeta.
  pose proof (map_handle_success_region os handle offset length mode this
                error w Hos HP Hoff Hres Hsum Hunset) as Hregion.
  cbv zeta in Hregion.
  destruct Hregion as (Hregion & Hvalid & Hslack & Hspan).
  rewrite Hregion in Hdata |- *. cbn [data_] in Hdata.
  destruct (mapped_span_is_recovered os _ _ _ handle stale
              (o_world (map_handle os handle offset length mode this error w))
              Hvalid Hslack Hspan Hdata)
    as (_ & _ & Htrace & Hok & Hfail).
  repeat split; assumption.
Qed.

(** X12: [sync] on a region that is not open, such as one that was just
    unmapped, fails with the bad-descriptor condition and makes no system
    call; on an open region without data it makes no system call and
    reports no error. *)
Theorem sync_without_data_makes_no_call
  (os : os_model) (this : mmap) (error : error_code) (w : world) :
  (is_open this = false ->
   sync os this error w = (make_error_code bad_file_descriptor, w))
  /\ sync os (fst (unmap os this w)) error (snd (unmap os this w))
     = (make_error_code bad_file_descriptor, snd (unmap os this w))
  /\ (is_open this = true -> data_ this = nullptr ->
      sync os this error w = (error_clear, w)).
Proof.
  assert (Hclosed : forall (region : mmap) (w' : world),
             is_open region = false ->
             sync os region error w'
             = (make_error_code bad_file_descriptor, w')).
  { intros region w' Hregion. unfold sync. rewrite Hregion. reflexivity. }
  split; [ apply Hclosed | ].
  split; [ apply Hclosed, unmap_closes_the_region | ].
  intros Hopen Hdata. unfold sync, data. rewrite Hopen, Hdata. reflexivity.
Qed.

(** ** The empty state *)

Lemma map_handle_keeps_closed_empty
  (os : os_model) (handle : handle_type) (offset length : size_type)
  (mode : access_mode) (this : mmap) (error : error_code) (w : world) :
  closed_is_empty this ->
  closed_is_empty (o_this (map_handle os handle offset length mode this
                                      error w)).
Proof.
  intros Hinv.
  destruct (map_handle_cases os handle offset length mode this error w)
    as [(-> & _) | (Hvalid & _ & _ & Hhandle & _)]; [ exact Hinv | ].
  intros Hclosed. apply is_open_false in Hclosed. congruence.
Qed.

Lemma step_keeps_closed_empty
  (os : os_model) (op : operation) (this : mmap) (w : world) :
  closed_is_empty this -> closed_is_empty (fst (step os op (this, w))).
Proof.
  intros Hinv.
  destruct op as [path offset length mode | handle offset length mode | | ];
    cbn [step fst].
  - destruct (map_path_cases os path offset length mode this error_clear w)
      as [(_ & ->) | [(_ & _ & ->) | [(_ & _ & _ & _ & ->)
                                     | (_ & _ & w1 & _ & ->)]]];
      cbv zeta; cbn [o_this]; try exact Hinv.
    pose proof (map_handle_keeps_closed_empty os
                  (sr_ret (os_open os (w_trace w) path (open_flags_of mode)))
                  offset length mode this error_clear w1 Hinv) as Hmapped.
    intros Hclosed. apply Hmapped. exact Hclosed.
  - apply map_handle_keeps_closed_empty. exact Hinv.
  - exact Hinv.
  - intros _. unfold unmap. destruct (is_open this) eqn:Hopen; cbn [negb fst].
    + repeat split.
    + apply Hinv. exact Hopen.
Qed.

(** X13: whatever sequence of [map], [sync] and [unmap] calls a region goes
    through, whenever it is not open it is in the empty state: [data] null,
    [length] and [mapped_length] zero; in particular a region that started
    default-constructed. *)
Theorem closed_region_is_always_empty
  (os : os_model) (ops : list operation) (this : mmap) (w : world) :
  closed_is_empty this ->
  closed_is_empty (fst (run os ops (this, w))).
Proof.
  revert this w. induction ops as [| op ops IH]; intros this w Hinv.
  - exact Hinv.
  - change (run os (op :: ops) (this, w))
      with (run os ops (step os op (this, w))).
    pose proof (step_keeps_closed_empty os op this w Hinv) as Hstep.
    destruct (step os op (this, w)) as [this1 w1].
    apply IH. exact Hstep.
Qed.

(** ** Moving *)

(** X14: move construction gives the new region every field of the source
    and leaves the source not open and empty; destroying the source makes no
    system call, so destroying both, in either order, does to the system
    what destroying the original would have done: nothing is released
    twice. *)
Theorem move_construct_hands_over
  (os : os_model) (other : mmap) (w : world) :
  fst (move_construct other) = other
  /\ is_open (snd (move_construct other)) = false
  /\ empty_state (snd (move_construct other))
  /\ destroy os (snd (move_construct other)) w = w
  /\ destroy os (fst (move_construct other))
             (destroy os (snd (move_construct other)) w)
     = destroy os other w
  /\ destroy os (snd (move_construct other))
             (destroy os (fst (move_construct other)) w)
     = destroy os other w.
Proof.
  destruct other as [d l ml fh own]. cbn [move_construct fst snd].
  repeat split.
Qed.

(** X15: move assignment between two distinct regions first tears the
    target down exactly as its destruction would, then gives it every field
    of the source and leaves the source default; destroying both afterwards
    does to the system what destroying the source would have done. *)
Theorem move_assign_releases_then_hands_over
  (os : os_model) (this other : mmap) (w : world) :
  fst (fst (move_assign os this other w)) = other
  /\ snd (fst (move_assign os this other w)) = mmap_default
  /\ snd (move_assign os this other w) = destroy os this w
  /\ destroy os (fst (fst (move_assign os this other w)))
             (destroy os (snd (fst (move_assign os this other w)))
                      (snd (move_assign os this other w)))
     = destroy os other (destroy os this w).
Proof.
  unfold move_assign, destroy.
  destruct (unmap os this w) as [this' w1].
  destruct other as [d l ml fh own]. cbn [fst snd].
  repeat split.
Qed.

(** ** Mapping again after unmap *)

Lemma map_handle_on_emptied_region
  (os : os_model) (handle : handle_type) (offset length : size_type)
  (mode : access_mode) (own : bool) (error : error_code) (w : world) :
  let a :=
    map_handle os handle offset length mode
               (mk_mmap nullptr 0 0 INVALID_HANDLE_VALUE own) error w in
  let b := map_handle os handle offset length mode mmap_default error w in
  o_error a = o_error b
  /\ o_world a = o_world b
  /\ same_but_ownership (o_this a) (o_this b)
  /\ (error_set (o_error a) = false -> o_this a = o_this b).
Proof.
  cbv zeta. unfold map_handle, mmap_default, same_but_ownership.
  cbn [data_ length_ mapped_length_].
  destruct (handle =? INVALID_HANDLE_VALUE);
    [ cbn; repeat split; discriminate | ].
  destruct (query_file_size os handle error_clear w) as [[file_size err] w1].
  destruct (error_set err) eqn:Herr;
    [ cbn [o_this o_error o_world]; repeat split; congruence | ].
  destruct (length <=? 0); [ repeat split | ].
  destruct (int64_wrap (offset + length) >? file_size);
    [ cbn; repeat split; discriminate | repeat split ].
Qed.

(** X16: a region that is not open and empty, such as [unmap] leaves it,
    maps like a default-constructed one: both [map] overloads make the same
    system calls, report the same error and leave the same fields, the
    ownership flag apart; when the call leaves the error slot unset, the
    flag is the same as well. *)
Theorem emptied_region_maps_like_a_fresh_one
  (os : os_model) (path : string) (handle : handle_type)
  (offset length : size_type) (mode : access_mode) (this : mmap)
  (error : error_code) (w : world) :
  is_open this = false ->
  empty_state this ->
  (o_error (map_handle os handle offset length mode this error w)
   = o_error (map_handle os handle offset length mode mmap_default error w)
   /\ o_world (map_handle os handle offset length mode this error w)
      = o_world (map_handle os handle offset length mode mmap_default error w)
   /\ same_but_ownership
        (o_this (map_handle os handle offset length mode this error w))
        (o_this (map_handle os handle offset length mode mmap_default
                            error w))
   /\ (error_set (o_error (map_handle os handle offset length mode this
                                      error w)) = false ->
       o_this (map_handle os handle offset length mode this error w)
       = o_this (map_handle os handle offset length mode mmap_default
                            error w)))
  /\ (o_error (map_path os path offset length mode this error w)
      = o_error (map_path os path offset length mode mmap_default error w)
      /\ o_world (map_path os path offset length mode this error w)
         = o_world (map_path os path offset length mode mmap_default error w)
      /\ same_but_ownership
           (o_this (map_path os path offset length mode this error w))
           (o_this (map_path os path offset length mode mmap_default error w))
      /\ (error_set (o_error (map_path os path offset length mode this
                                       error w)) = false ->
          o_this (map_path os path offset length mode this error w)
          = o_this (map_path os path offset length mode mmap_default
                             error w))).
Proof.
  intros Hclosed (Hdata & Hlength & Hmapped).
  apply is_open_false in Hclosed.
  destruct this as [d l ml fh own].
  cbn [data_ length_ mapped_length_ file_handle_] in *. subst d l ml fh.
  split.
  - apply (map_handle_on_emptied_region os handle offset length mode own
             error w).
  - unfold map_path, is_open. cbn [file_handle_ mmap_default].
    destruct (empty path);
      [ cbn; unfold same_but_ownership; repeat split; discriminate | ].
    cbn [Z.eqb INVALID_HANDLE_VALUE Pos.eqb negb].
    destruct (open_file os path mode error_clear w) as [[opened err] w1].
    destruct (error_set err) eqn:Herr;
      [ cbn [o_this o_error o_world]; unfold same_but_ownership;
        repeat split; congruence | ].
    destruct (map_handle_on_emptied_region os opened offset length mode own
                err w1) as (Herror & Hworld & Hsame & _).
    cbv zeta in Herror, Hworld, Hsame.
    destruct Hsame as (Hd & Hl & Hml & Hfh).
    fold mmap_default.
    cbn [o_this o_error o_world]. unfold same_but_ownership.
    cbn [data_ length_ mapped_length_ file_handle_].
    rewrite Hd, Hl, Hml, Hfh, Herror, Hworld. repeat split.
Qed.

(** ** The further properties at work on the small system *)

(** Offset 4106 with pages of 4096 bytes. *)
Lemma make_page_aligned_rounds_down_witness :
  make_page_aligned paged_os 4106 mod page_size paged_os = 0
  /\ 0 <= make_page_aligned paged_os 4106 <= 4106
  /\ 4106 - make_page_aligned paged_os 4106 < page_size paged_os
  /\ make_page_aligned paged_os (make_page_aligned paged_os 4106)
     = make_page_aligned paged_os 4106.
Proof.
  apply (make_page_aligned_rounds_down paged_os 4106).
  - reflexivity.
  - split; [ discriminate | reflexivity ].
Defined.

(** Opening a path that names no file. *)
Lemma open_file_error_iff_invalid_handle_witness :
  error_set
    (snd (fst (open_file (demo_os []) "missing.bin" read_only error_clear
                         boot))) = true.
Proof.
  apply (open_file_error_iff_invalid_handle (demo_os []) "missing.bin"
           read_only error_clear boot (demo_os_errno_discipline [])).
  reflexivity.
Defined.

(** The size of the file behind the caller's descriptor. *)
Lemma query_file_size_reports_fstat_witness :
  fst (query_file_size paged_os 3 error_clear (caller_opened "data.bin"))
  = (8202, error_clear).
Proof.
  apply (query_file_size_reports_fstat paged_os 3 error_clear
           (caller_opened "data.bin") (demo_os_errno_discipline _)).
  vm_compute. discriminate.
Defined.

(** The caller's descriptor 3 after the region mapped on it is gone. *)
Lemma caller_handle_is_never_closed_witness :
  file_handle_ (o_this aligned_call) = 3
  /\ is_handle_internal_ (o_this aligned_call) = false
  /\ forall fd,
      closes fd
        (w_trace (destroy paged_os (o_this aligned_call)
                          (o_world aligned_call)))
      = closes fd (w_trace (caller_opened_rw "data.bin")).
Proof.
  apply (caller_handle_is_never_closed paged_os 3 4106 10 read_write
           mmap_default error_clear (caller_opened_rw "data.bin")).
  reflexivity.
Defined.

(** A region mapped on the caller's descriptor, flushed, and unmapped
    twice. *)
Lemma handle_based_use_never_closes_witness :
  is_handle_internal_
    (fst (run paged_os
              [call_map_handle 3 0 0 read_only; call_sync;
               call_unmap; call_unmap]
              (mmap_default, caller_opened "data.bin"))) = false
  /\ closes 3
       (w_trace
          (destroy paged_os
             (fst (run paged_os
                       [call_map_handle 3 0 0 read_only; call_sync;
                        call_unmap; call_unmap]
                       (mmap_default, caller_opened "data.bin")))
             (snd (run paged_os
                       [call_map_handle 3 0 0 read_only; call_sync;
                        call_unmap; call_unmap]
                       (mmap_default, caller_opened "data.bin")))))
     = closes 3 (w_trace (caller_opened "data.bin")).
Proof.
  destruct (handle_based_use_never_closes paged_os
              [call_map_handle 3 0 0 read_only; call_sync; call_unmap;
               call_unmap]
              mmap_default (caller_opened "data.bin") eq_refl eq_refl)
    as [Hflag Hcloses].
  split; [ exact Hflag | exact (Hcloses 3) ].
Defined.

(** The file mapped by path: descriptor 3 is opened, owned, and closed once
    by the destructor. *)
Lemma owned_handle_is_closed_once_witness :
  file_handle_
    (o_this (map_path paged_os "data.bin" 4106 10 read_write mmap_default
                      error_clear boot)) = 3
  /\ closes 3
       (w_trace
          (destroy paged_os
             (o_this (map_path paged_os "data.bin" 4106 10 read_write
                               mmap_default error_clear boot))
             (o_world (map_path paged_os "data.bin" 4106 10 read_write
                                mmap_default error_clear boot))))
     = 1%nat.
Proof.
  pose proof (owned_handle_is_closed_once paged_os "data.bin" 4106 10
                read_write mmap_default error_clear boot eq_refl eq_refl)
    as Honce.
  cbv zeta in Honce.
  destruct Honce as (Hhandle & _ & _ & _ & Hcloses & _).
  split; [ exact Hhandle | exact Hcloses ].
Defined.

(** Ten bytes at offset 4106: the twenty bytes mapped at 1048576 are what
    [unmap] releases and what [sync] flushes. *)
Lemma unmap_releases_what_map_mapped_witness :
  get_mapping_start (o_this aligned_call) = 1048576
  /\ w_trace (snd (unmap paged_os (o_this aligned_call)
                         (o_world aligned_call)))
     = w_trace (o_world aligned_call) ++ [sys_munmap 1048576 20]
  /\ is_open (fst (unmap paged_os (o_this aligned_call)
                         (o_world aligned_call))) = false.
Proof.
  apply (unmap_releases_what_map_mapped paged_os 3 4106 10 read_write
           mmap_default error_clear (caller_opened_rw "data.bin")).
  - apply demo_os_errno_discipline.
  - reflexivity.
  - vm_compute. discriminate.
  - vm_compute. discriminate.
  - vm_compute. discriminate.
  - reflexivity.
  - vm_compute. discriminate.
Defined.

Lemma sync_flushes_what_map_mapped_witness :
  w_trace (snd (sync paged_os (o_this aligned_call)
                     (make_error_code invalid_argument)
                     (o_world aligned_call)))
  = w_trace (o_world aligned_call) ++ [sys_msync 1048576 20 MS_SYNC]
  /\ fst (sync paged_os (o_this aligned_call)
               (make_error_code invalid_argument) (o_world aligned_call))
     = error_clear.
Proof.
  pose proof (sync_flushes_what_map_mapped paged_os 3 4106 10 read_write
                mmap_default error_clear (make_error_code invalid_argument)
                (caller_opened_rw "data.bin")
                (demo_os_errno_discipline _) eq_refl
                ltac:(vm_compute; discriminate)
                ltac:(vm_compute; discriminate)
                ltac:(vm_compute; discriminate)
                eq_refl
                ltac:(vm_compute; discriminate)) as Hsync.
  cbv zeta in Hsync. destruct Hsync as (Htrace & Hok & _).
  split; [ exact Htrace | apply Hok; reflexivity ].
Defined.

(** A default-constructed region after a rejected map, a successful map
    and an unmap. *)
Lemma closed_region_is_always_empty_witness :
  closed_is_empty
    (fst (run two_files
              [call_map_path "a.bin" 0 100 read_only;
               call_map_path "a.bin" 0 10 read_only; call_unmap]
              (mmap_default, boot))).
Proof.
  apply (closed_region_is_always_empty two_files
           [call_map_path "a.bin" 0 100 read_only;
            call_map_path "a.bin" 0 10 read_only; call_unmap]
           mmap_default boot).
  intros _. repeat split.
Defined.

(** A region that owned its handle, unmapped, maps by path like a new
    one. *)
Lemma emptied_region_maps_like_a_fresh_one_witness :
  o_this (map_path paged_os "data.bin" 4106 10 read_write
                   (fst (unmap paged_os mapped_region boot)) error_clear
                   (snd (unmap paged_os mapped_region boot)))
  = o_this (map_path paged_os "data.bin" 4106 10 read_write mmap_default
                     error_clear (snd (unmap paged_os mapped_region boot))).
Proof.
  apply (emptied_region_maps_like_a_fresh_one paged_os "data.bin" 3 4106 10
           read_write (fst (unmap paged_os mapped_region boot)) error_clear
           (snd (unmap paged_os mapped_region boot))).
  - reflexivity.
  - repeat split.
  - reflexivity.
Defined.

(** ** The bounds check for an explicit length *)

(** X17: a successful handle-based [map] with a positive length, where
    [offset + length] does not overflow, gives a region of exactly that
    length which ends within the file: [size() = length] and
    [offset + size()] is at most the size the size query reported. *)
Theorem explicit_length_stays_within_file
  (os : os_model) (handle : handle_type) (offset length : size_type)
  (mode : access_mode) (this : mmap) (error : error_code) (w : world) :
  errno_discipline os ->
  0 < length ->
  - 2 ^ 63 <= offset + length <= INT64_MAX ->
  error_set (o_error (map_handle os handle offset length mode this error w))
  = false ->
  size (o_this (map_handle os handle offset length mode this error w))
  = length
  /\ offset
     + size (o_this (map_handle os handle offset length mode this error w))
     <= os_st_size os (w_trace w) handle.
Proof.
  intros Hos Hpos Hrange Hunset.
  destruct (map_handle_success_inv os handle offset length mode this error w
              Hos Hunset) as (Hvalid & Hstat & Hbound & Hmapped).
  specialize (Hbound Hpos).
  rewrite (int64_wrap_small _ Hrange) in Hbound.
  rewrite (map_handle_unfold os handle offset length mode this error w
             Hvalid Hstat).
  cbv zeta.
  assert (Hsentinel : (length <=? 0) = false) by (apply Z.leb_gt; exact Hpos).
  rewrite Hsentinel in Hmapped |- *.
  rewrite (int64_wrap_small _ Hrange).
  assert (Hin : (offset + length >? os_st_size os (w_trace w) handle) = false).
  { destruct (offset + length >? os_st_size os (w_trace w) handle) eqn:Hgt;
      [ apply Z.gtb_lt in Hgt; lia | reflexivity ]. }
  rewrite Hin.
  rewrite map_offset_mapped by exact Hmapped.
  unfold size. cbn [o_this length_]. split; [ reflexivity | exact Hbound ].
Qed.

Lemma explicit_length_stays_within_file_witness :
  size (o_this aligned_call) = 10
  /\ 4106 + size (o_this aligned_call)
     <= os_st_size paged_os (w_trace (caller_opened_rw "data.bin")) 3.
Proof.
  apply (explicit_length_stays_within_file paged_os 3 4106 10 read_write
           mmap_default error_clear (caller_opened_rw "data.bin")).
  - apply demo_os_errno_discipline.
  - reflexivity.
  - split; vm_compute; discriminate.
  - reflexivity.
Defined.

(** ** The destructor after a path-based map *)

Lemma unmap_releases_and_closes (os : os_model) (this : mmap) (w : world) :
  is_open this = true ->
  data_ this <> nullptr ->
  - 2 ^ 63 <= mapped_length_ this - length_ this <= INT64_MAX ->
  0 <= mapped_length_ this <= INT64_MAX ->
  is_handle_internal_ this = true ->
  w_trace (snd (unmap os this w))
  = w_trace w
    ++ [sys_munmap (data_ this - (mapped_length_ this - length_ this))
                   (mapped_length_ this);
        sys_close (file_handle_ this)].
Proof.
  intros Hopen Hdata Hslack Hspan Howned.
  unfold unmap. rewrite Hopen, Howned.
  rewrite (get_mapping_start_exact this Hdata Hslack).
  apply Z.eqb_neq in Hdata. rewrite Hdata. cbn [negb snd].
  unfold posix_close, posix_munmap, perform. cbn [snd w_trace].
  rewrite size_t_wrap_small by exact Hspan.
  rewrite <- app_assoc. reflexivity.
Qed.

Lemma map_path_success_handle
  (os : os_model) (path : string) (offset length : size_type)
  (mode : access_mode) (this : mmap) (error : error_code) (w : world) :
  is_open this = false ->
  error_set (o_error (map_path os path offset length mode this error w))
  = false ->
  file_handle_ (o_this (map_path os path offset length mode this error w))
  = sr_ret (os_open os (w_trace w) path (open_flags_of mode))
  /\ sr_ret (os_open os (w_trace w) path (open_flags_of mode))
     <> INVALID_HANDLE_VALUE.
Proof.
  intros Hclosed Hunset.
  destruct (map_path_cases os path offset length mode this error w)
    as [(_ & Hcall) | [(_ & Hopen & _) | [(_ & _ & _ & Herrno & Hcall)
                                         | (_ & _ & w1 & _ & Hcall)]]].
  - rewrite Hcall in Hunset. discriminate.
  - congruence.
  - rewrite Hcall in Hunset. unfold error_set in Hunset.
    cbn [o_error ec_value] in Hunset.
    apply negb_false_iff, Z.eqb_eq in Hunset. contradiction.
  - rewrite Hcall in Hunset |- *. cbv zeta in Hunset |- *.
    cbn [o_this o_error file_handle_] in Hunset |- *.
    destruct (map_handle_cases os
                (sr_ret (os_open os (w_trace w) path (open_flags_of mode)))
                offset length mode this error_clear w1)
      as [(_ & Hset & _) | (Hvalid & _ & _ & Hhandle & _)];
      [ congruence | split; assumption ].
Qed.

(** X18: after a successful path-based [map] on a region that was not open,
    whose [data] is not null, the destructor makes two system calls, in this
    order: [munmap] of the address the mapping primitive returned with the
    mapped length, then [close] of the descriptor that [open] returned. *)
Theorem destructor_releases_then_closes
  (os : os_model) (path : string) (offset length : size_type)
  (mode : access_mode) (this : mmap) (error : error_code) (w : world) :
  errno_discipline os ->
  0 < page_size os ->
  0 <= offset ->
  is_open this = false ->
  let handle := sr_ret (os_open os (w_trace w) path (open_flags_of mode)) in
  let t1 := w_trace w ++ [sys_open path (open_flags_of mode)] in
  let resolved := if length <=? 0 then os_st_size os t1 handle else length in
  0 <= resolved ->
  offset + resolved <= INT64_MAX ->
  error_set (o_error (map_path os path offset length mode this error w))
  = false ->
  data_ (o_this (map_path os path offset length mode this error w))
  <> nullptr ->
  let aligned_offset := offset / page_size os * page_size os in
  let length_to_map := offset - aligned_offset + resolved in
  let mapping_start :=
    sr_ret (os_mmap os (t1 ++ [sys_fstat handle]) length_to_map
                    (protection_of mode) MAP_SHARED handle aligned_offset) in
  let r := map_path os path offset length mode this error w in
  w_trace (destroy os (o_this r) (o_world r))
  = w_trace (o_world r)
    ++ [sys_munmap mapping_start length_to_map; sys_close handle].
Proof.
  intros Hos HP Hoff Hclosed. cbv zeta. intros Hres Hsum Hunset Hdata.
  pose proof (map_path_honours_page_alignment os path offset length mode this
                error w Hos HP Hoff Hclosed) as Hfields.
  cbv zeta in Hfields.
  destruct (Hfields Hres Hsum Hunset)
    as (_ & Hstart & Hlength & Hmapped & Howned).
  destruct (map_path_success_handle os path offset length mode this error w
              Hclosed Hunset) as (Hhandle & Hvalid).
  destruct (page_floor_bounds (page_size os) offset HP Hoff) as [Hfloor _].
  assert (Hopen : is_open (o_this (map_path os path offset length mode this
                                            error w)) = true)
    by (apply is_open_true; congruence).
  unfold destroy.
  destruct (length <=? 0);
    (rewrite unmap_releases_and_closes;
      [ rewrite Hhandle, Hstart, Hlength, Hmapped; do 2 f_equal; f_equal; lia
      | exact Hopen | exact Hdata
      | rewrite Hlength, Hmapped; unfold INT64_MAX in *; lia
      | rewrite Hmapped; lia
      | exact Howned ]).
Qed.

Lemma destructor_releases_then_closes_witness :
  w_trace
    (destroy paged_os
       (o_this (map_path paged_os "data.bin" 4106 10 read_write mmap_default
                         error_clear boot))
       (o_world (map_path paged_os "data.bin" 4106 10 read_write mmap_default
                          error_clear boot)))
  = [sys_open "data.bin" O_RDWR; sys_fstat 3;
     sys_mmap 0 20 PROT_WRITE MAP_SHARED 3 4096;
     sys_munmap 1048576 20; sys_close 3].
Proof.
  apply (destructor_releases_then_closes paged_os "data.bin" 4106 10
           read_write mmap_default error_clear boot).
  - apply demo_os_errno_discipline.
  - reflexivity.
  - vm_compute. discriminate.
  - reflexivity.
  - vm_compute. discriminate.
  - vm_compute. discriminate.
  - reflexivity.
  - vm_compute. discriminate.
Defined.

(** ** Page alignment through the path-based map *)

(** X19: a successful path-based [map] on a region that was not open makes
    three system calls, [open], the size query and the mapping request at
    the page-aligned offset for the slack plus the resolved length; then
    [data] is the returned start plus the slack, [length] the resolved
    length, [mapped_length] the requested span, and the region owns the
    handle. *)
Theorem path_based_map_honours_page_alignment
  (os : os_model) (path : string) (offset length : size_type)
  (mode : access_mode) (this : mmap) (error : error_code) (w : world) :
  errno_discipline os ->
  0 < page_size os ->
  0 <= offset ->
  is_open this = false ->
  let handle := sr_ret (os_open os (w_trace w) path (open_flags_of mode)) in
  let t1 := w_trace w ++ [sys_open path (open_flags_of mode)] in
  let resolved := if length <=? 0 then os_st_size os t1 handle else length in
  0 <= resolved ->
  offset + resolved <= INT64_MAX ->
  error_set (o_error (map_path os path offset length mode this error w))
  = false ->
  let aligned_offset := offset / page_size os * page_size os in
  let length_to_map := offset - aligned_offset + resolved in
  let r := map_path os path offset length mode this error w in
  w_trace (o_world r)
  = t1 ++ [sys_fstat handle;
           sys_mmap 0 length_to_map (protection_of mode) MAP_SHARED handle
                    aligned_offset]
  /\ data_ (o_this r)
     = sr_ret (os_mmap os (t1 ++ [sys_fstat handle]) length_to_map
                       (protection_of mode) MAP_SHARED handle aligned_offset)
       + (offset - aligned_offset)
  /\ length_ (o_this r) = resolved
  /\ mapped_length_ (o_this r) = length_to_map
  /\ is_handle_internal_ (o_this r) = true.
Proof.
  exact (map_path_honours_page_alignment os path offset length mode this
           error w).
Qed.

Lemma path_based_map_honours_page_alignment_witness :
  w_trace
    (o_world (map_path paged_os "data.bin" 4106 10 read_write mmap_default
                       error_clear boot))
  = [sys_open "data.bin" O_RDWR; sys_fstat 3;
     sys_mmap 0 20 PROT_WRITE MAP_SHARED 3 4096]
  /\ data_
       (o_this (map_path paged_os "data.bin" 4106 10 read_write mmap_default
                         error_clear boot))
     = 1048576 + (4106 - 4096)
  /\ length_
       (o_this (map_path paged_os "data.bin" 4106 10 read_write mmap_default
                         error_clear boot)) = 10
  /\ mapped_length_
       (o_this (map_path paged_os "data.bin" 4106 10 read_write mmap_default
                         error_clear boot)) = 20
  /\ is_handle_internal_
       (o_this (map_path paged_os "data.bin" 4106 10 read_write mmap_default
                         error_clear boot)) = true.
Proof.
  apply (path_based_map_honours_page_alignment paged_os "data.bin" 4106 10
           read_write mmap_default error_clear boot).
  - apply demo_os_errno_discipline.
  - reflexivity.
  - vm_compute. discriminate.
  - reflexivity.
  - vm_compute. discriminate.
  - vm_compute. discriminate.
  - reflexivity.
Defined.
